(** * Market-basket analysis of the troll-tweet corpus: a shallow embedding

    The development follows the three Python modules under
    [analysis_code/Daniel]:

    - [trolldata_utils.py]: the text normalisers [remove_links],
      [emoji_only] and [unique_vals];
    - [emoji_market_basket.py]: [prepare_emoji_data] and
      [market_basket_analyzer];
    - [emoji_word_market_basket.py]: [prepare_emoji_word_data] and the same
      [market_basket_analyzer].

    Conventions.  A Python [str] is a list of code points, a Python [int] is
    an integer of [Z], a [dict] is a [gmap], a [set]/[frozenset] is a [gset],
    a raised exception is the left injection of a sum.  The code is written
    over the few operations on Python floats that it uses (the class
    [Arith]); [binary64] gives them their meaning on IEEE doubles, which is
    the arithmetic of the code, and [exact] their meaning on exact
    rationals, the arithmetic without rounding. *)

From Stdlib Require Import QArith Qround.
From Stdlib Require Import PrimFloat FloatOps SpecFloat.
From stdpp Require Import gmap list sorting lexico.

Local Open Scope Z_scope.

(** ** Python strings *)

Definition char := N.
Definition str := list char.

(** [str.isspace] on one code point (the Unicode white-space code points
    CPython recognises). *)
Definition isspace (c : char) : bool :=
  bool_decide (c ∈ [9; 10; 11; 12; 13; 28; 29; 30; 31; 32; 133; 160; 5760;
                    8192; 8193; 8194; 8195; 8196; 8197; 8198; 8199; 8200;
                    8201; 8202; 8232; 8233; 8239; 8287; 12288]%N).

Definition space : char := 32%N.

(** [text.split()]: the maximal runs of non-white-space characters, in
    order.  [cur] is the word being read. *)
Definition flush (cur : str) : list str :=
  match cur with [] => [] | _ => [cur] end.

Fixpoint split_from (cur : str) (s : str) : list str :=
  match s with
  | [] => flush cur
  | c :: s' =>
      if isspace c then flush cur ++ split_from [] s'
      else split_from (cur ++ [c]) s'
  end.

Definition split (s : str) : list str := split_from [] s.

(** [' '.join(words)]. *)
Fixpoint join (words : list str) : str :=
  match words with
  | [] => []
  | [w] => w
  | w :: rest => w ++ space :: join rest
  end.

(** [text.strip()]. *)
Fixpoint lstrip (s : str) : str :=
  match s with
  | c :: s' => if isspace c then lstrip s' else s
  | [] => []
  end.

Definition strip (s : str) : str := reverse (lstrip (reverse (lstrip s))).

(** [dict.fromkeys(xs)] read back as a sequence: every element once, at the
    place of its first occurrence. *)
Fixpoint fromkeys `{EqDecision A} (xs : list A) : list A :=
  match xs with
  | [] => []
  | x :: xs' => x :: filter (λ y, y ≠ x) (fromkeys xs')
  end.

(** [all(p(c) for c in s)]. *)
Definition all_chars (p : char → bool) (s : str) : bool := forallb p s.

(** ** Python values and exceptions *)

(** The values that reach the normalisers.  A cell of the ['content'] column
    is a string, a null ([None] or [NaN]) or a number; an argument is such
    a scalar or a DataFrame, of which only the ['content'] column is read. *)
Inductive scalar :=
  | SStr (s : str)
  | SNull
  | SNum (n : Z).

Inductive value :=
  | Scalar (x : scalar)
  | Frame (content : list scalar).

Inductive exn :=
  | AttributeError
  | ValueError
  | KeyError
  | IndexError
  | ZeroDivisionError
  | OverflowError.

Definition result (A : Type) : Type := exn + A.
Definition Ok {A} (a : A) : result A := inr a.
Definition Raise {A} (e : exn) : result A := inl e.

Global Instance result_ret : MRet result := λ A a, inr a.
Global Instance result_bind : MBind result := λ A B k m,
  match m with inl e => inl e | inr a => k a end.

(** [series.apply(f)] with a function that may raise: elements are visited
    in order and the first exception escapes. *)
Fixpoint apply_each {A B} (f : A → result B) (xs : list A) : result (list B) :=
  match xs with
  | [] => Ok []
  | x :: xs' => y ← f x; ys ← apply_each f xs'; Ok (y :: ys)
  end.

Definition is_str (x : scalar) : bool :=
  match x with SStr _ => true | _ => false end.

(** ** Python floats *)

(** The operations on floats that the code uses: the conversion of an
    [int] operand, [+], [-], [*], [/], [<=] (and [>=], its converse) and
    [int(x)], which may raise. *)
Class Arith (num : Type) := {
  of_int : Z → num;
  fadd : num → num → num;
  fsub : num → num → num;
  fmul : num → num → num;
  fdiv : num → num → num;
  fle : num → num → bool;
  to_int : num → result Z;
}.

(** [int(x)] truncates towards zero. *)
Definition int (x : Q) : Z := Z.quot (Qnum x) (Z.pos (Qden x)).

(** Arithmetic without rounding. *)
Definition exact : Arith Q := {|
  of_int := inject_Z;
  fadd := Qplus;
  fsub := Qminus;
  fmul := Qmult;
  fdiv := Qdiv;
  fle := Qle_bool;
  to_int := λ x, Ok (int x);
|}.

(** The integer part of a double: [int(x)] raises [ValueError] on a NaN and
    [OverflowError] on an infinity. *)
Definition float_to_int (x : float) : result Z :=
  match Prim2SF x with
  | S754_zero _ => Ok 0
  | S754_finite s m e =>
      let v := if 0 <=? e then Z.pos m * 2 ^ e else Z.pos m `div` 2 ^ (- e) in
      Ok (if s then - v else v)
  | S754_nan => Raise ValueError
  | S754_infinity _ => Raise OverflowError
  end.

(** The double nearest to an integer (ties to even), as the conversion of
    an [int] operand gives it. *)
Definition float_of_int (z : Z) : float :=
  SF2Prim (binary_normalize prec emax z 0 false).

(** IEEE double precision, the arithmetic of the code. *)
Definition binary64 : Arith float := {|
  of_int := float_of_int;
  fadd := PrimFloat.add;
  fsub := PrimFloat.sub;
  fmul := PrimFloat.mul;
  fdiv := PrimFloat.div;
  fle := PrimFloat.leb;
  to_int := float_to_int;
|}.

#[global] Existing Instance binary64.

(** The rational that a finite double stands for (0 for the others). *)
Definition exact_value (x : float) : Q :=
  match Prim2SF x with
  | S754_finite s m e =>
      let v := if 0 <=? e then inject_Z (Z.pos m * 2 ^ e)
               else (Z.pos m # Z.to_pos (2 ^ (- e)))%Q in
      if s then Qopp v else v
  | _ => 0%Q
  end.

(** ** trolldata_utils.py *)

(** [re.sub(r'http\S+', '', s)].  A match starts at an ['h'] that begins
    ["http"] followed by at least one non-white-space character, and runs
    to the next white-space character or the end of the string; [skipping]
    says that the scan is inside a match. *)
Definition starts_link (s : str) : bool :=
  match s with
  | 104%N :: 116%N :: 116%N :: 112%N :: c :: _ => negb (isspace c)
  | _ => false
  end.

Fixpoint sub_links (skipping : bool) (s : str) : str :=
  match s with
  | [] => []
  | c :: s' =>
      if skipping then
        if isspace c then c :: sub_links false s' else sub_links true s'
      else if starts_link s then sub_links true s'
      else c :: sub_links false s'
  end.

(** [df['content'].str.replace(r'http\S+', '', regex=True).str.strip()]:
    the [.str] accessor gives a null for every cell that is not a string.
    The accessor is taken to be there, as it is for a column that holds a
    string or is empty; on a column of numbers alone pandas refuses it with
    [AttributeError], the exception the word builder then raises from
    [unique_vals] in this model. *)
Definition remove_links (content : list scalar) : list scalar :=
  map (λ x, match x with
            | SStr s => SStr (strip (sub_links false s))
            | _ => SNull
            end) content.

Section Normalizer.

(** [c in emoji.EMOJI_DATA] for a one-character string [c]: the emoji table
    is the [emoji] package's and is a parameter here. *)
Variable EMOJI_DATA : char → bool.

(** [''.join(c for c in x if c in emoji.EMOJI_DATA)]. *)
Definition emoji_chars (x : str) : str := filter (λ c, EMOJI_DATA c) x.

Definition emoji_only (input_data : value) : result value :=
  match input_data with
  | Scalar (SStr s) => Ok (Scalar (SStr (emoji_chars s)))
  | Frame content =>
      Ok (Frame (map (λ x, match x with
                           | SStr s => SStr (emoji_chars s)
                           | _ => SStr []
                           end) content))
  | Scalar _ => Raise AttributeError (* [input_data.copy()] *)
  end.

(** The inner function of [unique_vals]. *)
Definition process_word (word : str) : str :=
  if all_chars EMOJI_DATA word then fromkeys word else word.

Definition process_text (text : scalar) : str :=
  match text with
  | SStr s => join (fromkeys (map process_word (split s)))
  | _ => []
  end.

Definition unique_vals (input_data : value) : result value :=
  match input_data with
  | Scalar (SStr s) => Ok (Scalar (SStr (process_text (SStr s))))
  | Frame content => Ok (Frame (map (λ x, SStr (process_text x)) content))
  | Scalar _ => Raise AttributeError (* [input_data.copy()] *)
  end.

End Normalizer.

(** ** scikit-learn's MultiLabelBinarizer

    A library class, not part of the repository; [fit_transform] follows
    its documented behaviour: [classes_] is the sorted array of the distinct
    labels, and cell [(t, j)] of the indicator matrix is 1 exactly when
    [classes_[j]] occurs in [y[t]]. Strings compare by code points. *)
Definition str_le : relation str := λ a b, a = b ∨ lexico a b.

Global Instance str_le_dec a b : Decision (str_le a b).
Proof.
  unfold str_le.
  destruct (decide (a = b)) as [->|Hne]; [left; by left|].
  destruct (trichotomyT lexico a b) as [[Hlt|Heq]|Hgt].
  - left. by right.
  - done.
  - right. intros [Heq|Hlt]; [done|].
    eapply (irreflexivity lexico a). by etrans.
Defined.

Definition classes_ (y : list (list str)) : list str :=
  merge_sort str_le (fromkeys (concat y)).

Definition fit_transform (y : list (list str)) : list (list Z) :=
  map (λ labels,
         map (λ c, if bool_decide (c ∈ labels) then 1 else 0) (classes_ y))
      y.

(** [pd.DataFrame(onehot_data, columns=mlb.classes_).astype(bool)]. *)
Record onehot_frame := OneHot {
  columns : list str;
  rows : list (list bool);
}.

Definition astype_bool (m : list (list Z)) : list (list bool) :=
  map (map (λ v, bool_decide (v ≠ 0))) m.

Definition binarize (transactions : list (list str)) : onehot_frame :=
  OneHot (classes_ transactions) (astype_bool (fit_transform transactions)).

(** ** emoji_market_basket.py: the transaction builder *)

Section Builders.

Context {num : Type} {F : Arith num}.
Variable EMOJI_DATA : char → bool.

(** [list(set(x))]: the distinct characters of [x] as one-character items,
    in the iteration order of the set (unspecified in Python; here the
    order of [elements]). *)
Definition list_set (x : str) : list str :=
  (λ c, [c]) <$> elements (list_to_set x : gset char).

Definition emoji_transactions (data : list scalar) (test_mode : bool)
  : result (list (list str)) :=
  emoji_series ← apply_each (λ x, emoji_only EMOJI_DATA (Scalar x)) data;
  let emoji_series :=
    if test_mode then take 100 emoji_series else emoji_series in
  Ok (map (λ x, match x with
                | Scalar (SStr s) => list_set s
                | _ => []
                end) emoji_series).

(** [data] is the ['content'] column that [load_troll_dataset] returns. *)
Definition prepare_emoji_data (data : list scalar) (test_mode : bool)
  : result onehot_frame :=
  transactions ← emoji_transactions data test_mode;
  Ok (binarize transactions).

(** ** emoji_word_market_basket.py: the transaction builder *)

Definition word_transactions (data : list scalar) (test_mode : bool)
  : result (list (list str)) :=
  let data := remove_links data in
  let data := if test_mode then take 100 data else data in
  processed_content ←
    apply_each (λ x, unique_vals EMOJI_DATA (Scalar x)) data;
  Ok (map (λ x, match x with
                | Scalar (SStr s) => split s
                | _ => []
                end) processed_content).

(** The counting loops: [item_counts[item] = item_counts.get(item, 0) + 1]. *)
Definition count_item (item_counts : gmap str Z) (item : str) : gmap str Z :=
  <[item := default 0 (item_counts !! item) + 1]> item_counts.

Definition count_items (transactions : list (list str)) : gmap str Z :=
  foldl (λ item_counts transaction, foldl count_item item_counts transaction)
        ∅ transactions.

(** [int(min_support * total_transactions)]. *)
Definition min_count_of (min_support : num) (total_transactions : nat)
  : result Z :=
  to_int (fmul min_support (of_int (Z.of_nat total_transactions))).

Definition frequent_items_of (item_counts : gmap str Z) (min_count : Z)
  : gset str :=
  dom (filter (λ kv : str * Z, min_count ≤ kv.2) item_counts).

Definition filter_transactions (transactions : list (list str))
    (min_support : num) : result (list (list str)) :=
  let item_counts := count_items transactions in
  let total_transactions := length transactions in
  min_count ← min_count_of min_support total_transactions;
  let frequent_items := frequent_items_of item_counts min_count in
  Ok (map (λ transaction, filter (λ item, item ∈ frequent_items) transaction)
          transactions).

Definition prepare_emoji_word_data (data : list scalar) (test_mode : bool)
    (min_support : num) : result onehot_frame :=
  transactions ← word_transactions data test_mode;
  filtered_transactions ← filter_transactions transactions min_support;
  Ok (binarize filtered_transactions).

End Builders.

(** ** market_basket_analyzer (the same function in both scripts) *)

Definition itemset := gset str.

Section Analyzer.

Context {num : Type} {F : Arith num}.

(** A row of the frequent-itemset frame and a row of the rule frame (of the
    metric columns only those the analyzer reads are kept). *)
Record itemset_row := ItemsetRow {
  fi_support : num;
  fi_itemsets : itemset;
}.

Record rule := Rule {
  antecedents : itemset;
  consequents : itemset;
  support : num;
  confidence : num;
  lift : num;
}.

(** A rule frame: the rows with their index labels. *)
Abbreviation rule_frame := (list (nat * rule)) (only parsing).

Record mba_result := MBA {
  itemsets : list itemset_row;
  rules : rule_frame;
}.

(** The calls into mlxtend, in the order they are made. *)
Inductive event :=
  | Mining (min_support : num)
  | RuleGeneration (num_itemsets : nat) (min_threshold : num).

(** A computation that logs its library calls and may raise. *)
Definition traced (A : Type) : Type := list event → list event * result A.

Definition tret {A} (a : A) : traced A := λ log, (log, Ok a).

Definition tbind {A B} (m : traced A) (k : A → traced B) : traced B :=
  λ log, match m log with
         | (log', inl e) => (log', inl e)
         | (log', inr a) => k a log'
         end.

Definition call {A} (e : event) (r : result A) : traced A :=
  λ log, (log ++ [e], r).

Definition lift_result {A} (r : result A) : traced A := λ log, (log, r).

Notation "'do' x <- m ; k" := (tbind m (λ x, k))
  (at level 10, x name, m at level 100, k at level 200, only parsing).

(** [frame[mask]] for a boolean mask aligned with the rows. *)
Fixpoint boolean_index {A} (mask : list bool) (frame : list A) : list A :=
  match mask, frame with
  | b :: mask', x :: frame' =>
      if b then x :: boolean_index mask' frame' else boolean_index mask' frame'
  | _, _ => []
  end.

(** A fresh frame carries the index 0, 1, 2, ... *)
Definition range_index {A} (xs : list A) : list (nat * A) :=
  zip (seq 0 (length xs)) xs.

(** The two lambdas of the lift filter: [row['lift'] >= 1 + lift_distance]
    and [... or row['lift'] <= 1 - lift_distance], the sum and the
    difference being computed in the arithmetic of the code. *)
Definition lift_mask (lift_distance : num) (find_negative_correlations : bool)
    (row : rule) : bool :=
  if find_negative_correlations then
    fle (fadd (of_int 1) lift_distance) (lift row)
    || fle (lift row) (fsub (of_int 1) lift_distance)
  else fle (fadd (of_int 1) lift_distance) (lift row).

Definition lift_filter (lift_distance : num) (find_negative_correlations : bool)
    (rules : rule_frame) : rule_frame :=
  let mask := map (λ row, lift_mask lift_distance find_negative_correlations
                            row.2) rules in
  boolean_index mask rules.

(** [index_list.index(idx)]. *)
Definition index (idx : nat) (index_list : list nat) : result nat :=
  match list_find (λ i, i = idx) index_list with
  | Some (pos, _) => Ok pos
  | None => Raise ValueError
  end.

(** [rules.iloc[pos]]. *)
Definition iloc (rules : rule_frame) (pos : nat) : result (nat * rule) :=
  match rules !! pos with
  | Some row => Ok row
  | None => Raise IndexError
  end.

(** [row['antecedents'] == prev_row['consequents'] and
     row['consequents'] == prev_row['antecedents']]. *)
Definition mirror (row prev_row : rule) : bool :=
  bool_decide (antecedents row = consequents prev_row)
  && bool_decide (consequents row = antecedents prev_row).

(** The closure [check_duplicate]; [rules] is the lift-filtered frame it
    captures. *)
Definition check_duplicate (rules : rule_frame) (row : nat * rule)
  : result bool :=
  let idx := row.1 in
  let index_list := rules.*1 in
  current_pos ← index idx index_list;
  if decide (0 < current_pos)%nat then
    prev_row ← iloc rules (current_pos - 1);
    Ok (mirror row.2 prev_row.2)
  else Ok false.

(** [mask = rules.progress_apply(check_duplicate, axis=1); rules[~mask]]. *)
Definition remove_duplicates (rules : rule_frame) : result rule_frame :=
  mask ← apply_each (check_duplicate rules) rules;
  Ok (boolean_index (negb <$> mask) rules).

(** mlxtend's miner and rule generator are library functions and are
    parameters of the analyzer. *)
Variable fpgrowth : onehot_frame → num → result (list itemset_row).
Variable association_rules :
  list itemset_row → nat → num → result (list rule).

(** When the rule generator returns a frame without rows, the row-wise
    [progress_apply] of the lift filter has no row to apply the lambda to
    and gives no boolean mask; [rules[mask]] then keeps no column, and the
    [progress_apply] of the deduplication pass, which counts its steps as
    [df.size // df.shape[1]], raises [ZeroDivisionError]. *)
Definition market_basket_analyzer (onehot : onehot_frame)
    (support confidence lift_distance : num)
    (find_negative_correlations : bool) : traced mba_result :=
  do frequent_itemsets <- call (Mining support) (fpgrowth onehot support);
  match frequent_itemsets with
  | [] => tret (MBA [] [])
  | _ =>
      do rules <-
        call (RuleGeneration (length frequent_itemsets) confidence)
             (association_rules frequent_itemsets (length frequent_itemsets)
                                confidence);
      let rules := range_index rules in
      match rules with
      | [] => lift_result (Raise ZeroDivisionError)
      | _ =>
          let rules :=
            lift_filter lift_distance find_negative_correlations rules in
          do rules <- lift_result (remove_duplicates rules);
          tret (MBA frequent_itemsets rules)
      end
  end.

End Analyzer.

Arguments itemset_row : clear implicits.
Arguments rule : clear implicits.
Arguments event : clear implicits.
Arguments mba_result : clear implicits.

Abbreviation rule_frame num := (list (nat * rule num)) (only parsing).

(** ** A reference model of the two mlxtend functions

    Used to run the analyzer on concrete frames.  It follows the documented
    behaviour of the library: [fpgrowth] rejects a non-positive
    [min_support] and returns every non-empty set of columns whose support
    reaches [min_support]; [association_rules] splits every frequent itemset
    of two or more items into antecedent and consequent, looks the supports
    up among the frequent itemsets, and keeps the rules whose confidence
    reaches [min_threshold].  The order of the rows, and the treatment of
    a [min_support] above 1 (here: no itemset), are those of this model,
    not of a particular release of the library. *)
Module Mlxtend.

Section Reference.

Context {num : Type} {F : Arith num}.

Fixpoint sublists {A} (l : list A) : list (list A) :=
  match l with
  | [] => [[]]
  | x :: l' => map (cons x) (sublists l') ++ sublists l'
  end.

Definition cell (onehot : onehot_frame) (row : list bool) (item : str) : bool :=
  match list_find (λ c, c = item) (columns onehot) with
  | Some (j, _) => default false (row !! j)
  | None => false
  end.

Definition support_of (onehot : onehot_frame) (items : list str) : num :=
  let hits := List.filter (λ row, forallb (cell onehot row) items)
                          (rows onehot) in
  fdiv (of_int (Z.of_nat (length hits)))
       (of_int (Z.of_nat (length (rows onehot)))).

Definition fpgrowth (onehot : onehot_frame) (min_support : num)
  : result (list (itemset_row num)) :=
  if fle min_support (of_int 0) then Raise ValueError
  else
    Ok (omap (λ items,
                match items with
                | [] => None
                | _ =>
                    let s := support_of onehot items in
                    if fle min_support s
                    then Some (ItemsetRow s (list_to_set items))
                    else None
                end)
             (sublists (columns onehot))).

Definition support_lookup (frequent_itemsets : list (itemset_row num))
    (items : itemset) : result num :=
  match list_find (λ r, fi_itemsets r = items) frequent_itemsets with
  | Some (_, r) => Ok (fi_support r)
  | None => Raise KeyError
  end.

Definition rules_of (frequent_itemsets : list (itemset_row num))
    (min_threshold : num) (r : itemset_row num) : result (list (rule num)) :=
  let items := elements (fi_itemsets r) in
  let splits :=
    List.filter (λ a, negb (bool_decide (a = []))
                      && negb (bool_decide (a = items)))
                (sublists items) in
  candidates ←
    apply_each (λ a,
                  let antecedent : itemset := list_to_set a in
                  let consequent := fi_itemsets r ∖ antecedent in
                  sA ← support_lookup frequent_itemsets antecedent;
                  sC ← support_lookup frequent_itemsets consequent;
                  let conf := fdiv (fi_support r) sA in
                  Ok (Rule antecedent consequent (fi_support r) conf
                           (fdiv conf sC)))
               splits;
  Ok (List.filter (λ x, fle min_threshold (confidence x)) candidates).

Definition association_rules (frequent_itemsets : list (itemset_row num))
    (num_itemsets : nat) (min_threshold : num) : result (list (rule num)) :=
  per_itemset ←
    apply_each (rules_of frequent_itemsets min_threshold) frequent_itemsets;
  Ok (concat per_itemset).

End Reference.

End Mlxtend.

(** ** Sample data *)

Definition ch_a : char := 97%N.
Definition ch_b : char := 98%N.
Definition grin : char := 128512%N.
Definition heart : char := 10084%N.

(** The sample emoji table holds the two sample emoji. *)
Definition sample_emoji (c : char) : bool :=
  bool_decide (c = grin) || bool_decide (c = heart).

(** Four transactions over the items ["a"] and ["b"]: both, both, ["a"],
    ["b"]. *)
Definition sample_onehot : onehot_frame :=
  OneHot [[ch_a]; [ch_b]]
         [[true; true]; [true; true]; [true; false]; [false; true]].


(** ** Two readings of the deduplication pass

    [mirrors_previous] compares a row with the row just before it in the
    lift-filtered frame; [dedup_retained] compares it with the last row that
    was kept. *)
Definition mirrors_previous {num : Type} (rules : rule_frame num) (i : nat)
    (row : nat * rule num)
  : bool :=
  match i with
  | O => false
  | S j =>
      match rules !! j with
      | Some prev_row => mirror row.2 prev_row.2
      | None => false
      end
  end.

Definition mirrors_opt {num : Type} (row : rule num)
    (prev : option (rule num)) : bool :=
  match prev with Some p => mirror row p | None => false end.

Fixpoint dedup_adjacent {num : Type} (prev : option (rule num))
    (rules : rule_frame num)
  : rule_frame num :=
  match rules with
  | [] => []
  | row :: rest =>
      if mirrors_opt row.2 prev then dedup_adjacent (Some row.2) rest
      else row :: dedup_adjacent (Some row.2) rest
  end.

Fixpoint dedup_retained {num : Type} (last : option (rule num))
    (rules : rule_frame num)
  : rule_frame num :=
  match rules with
  | [] => []
  | row :: rest =>
      if mirrors_opt row.2 last then dedup_retained last rest
      else row :: dedup_retained (Some row.2) rest
  end.

(** The rules A→B and B→A over the sample items, and the frame
    A→B, B→A, A→B. *)
Definition item_a : itemset := {[ [ch_a] ]}.
Definition item_b : itemset := {[ [ch_b] ]}.
Definition rule_ab : rule float :=
  Rule item_a item_b 0.5%float 0.75%float 2%float.
Definition rule_ba : rule float :=
  Rule item_b item_a 0.5%float 0.75%float 2%float.
Definition aba_frame : list (nat * rule float) :=
  [(0%nat, rule_ab); (1%nat, rule_ba); (2%nat, rule_ab)].

(** The antecedents and consequents of a rule, as a pair. *)
Definition sides {num : Type} (r : rule num) : itemset * itemset :=
  (antecedents r, consequents r).


(** ** The builders' input and output, side by side *)

(** The vocabulary in the order the items are first met, reading the
    transactions in order. *)
Definition first_encounter (transactions : list (list str)) : list str :=
  fromkeys (concat transactions).

(** The number of occurrences of an item in a list, and over all
    transactions. *)
Definition occ (item : str) (l : list str) : Z :=
  Z.of_nat (length (filter (λ x, x = item) l)).

Definition occurrences (item : str) (transactions : list (list str)) : Z :=
  occ item (concat transactions).

(** [df] is the frame one of the two builders returns on [data], and
    [transactions] the transaction list it binarizes (for the word builder,
    the filtered transactions). *)
Definition built {num : Type} {F : Arith num} (EMOJI_DATA : char → bool)
    (data : list scalar)
    (test_mode : bool) (min_support : num) (df : onehot_frame)
    (transactions : list (list str)) : Prop :=
  (emoji_transactions EMOJI_DATA data test_mode = Ok transactions
   ∧ prepare_emoji_data EMOJI_DATA data test_mode = Ok df)
  ∨ (∃ raw,
       word_transactions EMOJI_DATA data test_mode = Ok raw
       ∧ filter_transactions raw min_support = Ok transactions
       ∧ prepare_emoji_word_data EMOJI_DATA data test_mode min_support
         = Ok df).

(** The presence matrix a transaction list calls for, over given columns. *)
Definition presence (cols : list str) (transactions : list (list str))
  : list (list bool) :=
  map (λ txn, map (λ item, bool_decide (item ∈ txn)) cols) transactions.

(** Two sample posts, ["b a"] and ["a 😀😀"], their word transactions and the
    frame the word builder makes of them. *)
Definition sample_data : list scalar :=
  [SStr [ch_b; space; ch_a]; SStr [ch_a; space; grin; grin]].

Definition sample_transactions : list (list str) :=
  [[[ch_b]; [ch_a]]; [[ch_a]; [grin]]].

Definition sample_frame : onehot_frame :=
  OneHot [[ch_a]; [ch_b]; [grin]]
         [[true; true; false]; [true; false; true]].

(** A word as [split] produces it: not empty and free of white space. *)
Definition spaceless (w : str) : Prop := Forall (λ c, isspace c = false) w.
Definition proper_word (w : str) : Prop := w ≠ [] ∧ spaceless w.

(** The words of a normalised text. *)
Definition unique_words (EMOJI_DATA : char → bool) (s : str) : list str :=
  fromkeys (map (process_word EMOJI_DATA) (split s)).

(** [re.search(r'http\S+', s) is not None]: some suffix of [s] starts a
    link. *)
Fixpoint has_link (s : str) : bool :=
  match s with
  | [] => false
  | _ :: s' => starts_link s || has_link s'
  end.

(** The texts of a column whose cells are strings, and the posts a builder
    reads: all of them, or the first hundred in test mode. *)
Definition texts (data : list scalar) : list str :=
  omap (λ x, match x with SStr s => Some s | _ => None end) data.

Definition posts (data : list scalar) (test_mode : bool) : list scalar :=
  if test_mode then take 100 data else data.

(** The number of transactions an item is a member of. *)
Definition doc_freq (item : str) (transactions : list (list str)) : Z :=
  Z.of_nat (length (filter (λ txn, item ∈ txn) transactions)).

(** The length of [' '.join(words)], counted with one separator after
    every word. *)
Definition weight (words : list str) : nat :=
  foldr (λ w n, (length w + 1 + n)%nat) 0%nat words.

(** More sample data: a column for the emoji builder with its frame, a
    column with a link, the frame A→B, B→A, and the result of a sample run
    of the analyzer. *)
Definition sample_emoji_data : list scalar :=
  [SStr [ch_b; heart; ch_a; grin; heart]; SStr []].

Definition sample_emoji_frame : onehot_frame :=
  OneHot [[heart]; [grin]] [[true; true]; [false; false]].

Definition sample_link_data : list scalar :=
  [SStr [space; ch_a; space; 104; 116; 116; 112; 58; 47; ch_b]%N].

Definition ab_frame : list (nat * rule float) :=
  [(0%nat, rule_ab); (1%nat, rule_ba)].

(** Library calls with given results, for the runs of the analyzer that do
    not depend on what the library computes; and the itemsets {a}, {b},
    {a, b} as a miner may return them. *)
Definition given_itemsets (frequent_itemsets : result (list (itemset_row float)))
  : onehot_frame → float → result (list (itemset_row float)) :=
  λ _ _, frequent_itemsets.

Definition given_rules (rules : result (list (rule float)))
  : list (itemset_row float) → nat → float → result (list (rule float)) :=
  λ _ _ _, rules.

Definition sample_itemsets : list (itemset_row float) :=
  [ItemsetRow 0.75%float item_a; ItemsetRow 0.75%float item_b;
   ItemsetRow 0.5%float (item_a ∪ item_b)].

Definition sample_result : mba_result float :=
  MBA sample_itemsets [(0%nat, rule_ab)].


(** Doubles for the lift filter: the doubles nearest to 0.2, 1.2, 0.9 and
    0.1, and rules with the lifts 1.2 and 0.1. *)
Definition double_0_2 : float := 0x1.999999999999ap-3%float.
Definition double_1_2 : float := 0x1.3333333333333p+0%float.
Definition double_0_9 : float := 0x1.ccccccccccccdp-1%float.
Definition double_0_1 : float := 0x1.999999999999ap-4%float.

Definition rule_lift_1_2 : nat * rule float :=
  (0%nat, Rule item_a item_b 0.5%float 0.75%float double_1_2).
Definition rule_lift_0_1 : nat * rule float :=
  (0%nat, Rule item_a item_b 0.5%float 0.75%float double_0_1).

(** Doubles and transactions for the pruning: the doubles nearest to 0.3
    and 0.58; ten transactions in which ["a"] occurs twice, and fifty in
    which it occurs 28 times. *)
Definition double_0_3 : float := 0x1.3333333333333p-2%float.
Definition double_0_58 : float := 0x1.28f5c28f5c28fp-1%float.

Definition ten_transactions : list (list str) :=
  replicate 2 [[ch_a]; [ch_b]] ++ replicate 8 [[ch_b]].
Definition fifty_transactions : list (list str) :=
  replicate 28 [[ch_a]; [ch_b]] ++ replicate 22 [[ch_b]].

(** * Properties *)

(** ** Lists: [fromkeys] and [boolean_index] *)

Section ListFacts.

Context `{EqDecision A}.

Lemma elem_of_fromkeys (x : A) (xs : list A) : x ∈ fromkeys xs ↔ x ∈ xs.
Proof.
  induction xs as [|a xs IH]; simpl; [done|].
  rewrite !elem_of_cons, list_elem_of_filter, IH.
  destruct (decide (x = a)); tauto.
Qed.

Lemma NoDup_fromkeys (xs : list A) : NoDup (fromkeys xs).
Proof.
  induction xs as [|a xs IH]; simpl; [constructor|].
  constructor.
  - rewrite list_elem_of_filter. by intros [Hne _].
  - by apply NoDup_filter.
Qed.

Lemma filter_ne_id (a : A) (xs : list A) :
  a ∉ xs → filter (λ y, y ≠ a) xs = xs.
Proof.
  induction xs as [|b xs IH]; [done|].
  rewrite not_elem_of_cons. intros [Hab Hxs].
  rewrite filter_cons_True by done. by rewrite IH.
Qed.

Lemma fromkeys_NoDup_id (xs : list A) : NoDup xs → fromkeys xs = xs.
Proof.
  induction 1 as [|a xs Ha _ IH]; simpl; [done|].
  by rewrite IH, filter_ne_id.
Qed.

Lemma fromkeys_idemp (xs : list A) : fromkeys (fromkeys xs) = fromkeys xs.
Proof. apply fromkeys_NoDup_id, NoDup_fromkeys. Qed.

Lemma fromkeys_nil_inv (xs : list A) : fromkeys xs = [] → xs = [].
Proof. by destruct xs. Qed.

End ListFacts.

Lemma boolean_index_filter {A} (p : A → bool) (xs : list A) :
  boolean_index (map p xs) xs = List.filter p xs.
Proof.
  induction xs as [|x xs IH]; simpl; [done|].
  rewrite IH. by destruct (p x).
Qed.

Lemma elem_of_List_filter {A} (p : A → bool) (xs : list A) (x : A) :
  x ∈ List.filter p xs ↔ x ∈ xs ∧ p x = true.
Proof. rewrite !list_elem_of_In. apply filter_In. Qed.

(** ** Strings: [split] undoes [join] on proper words *)

Lemma split_from_spaceless (cur w rest : str) :
  spaceless w → split_from cur (w ++ rest) = split_from (cur ++ w) rest.
Proof.
  intros Hw. revert cur.
  induction Hw as [|c w Hc _ IH]; intros cur; simpl.
  - by rewrite app_nil_r.
  - rewrite Hc, IH. by rewrite <- app_assoc.
Qed.

Lemma flush_proper (w : str) : w ≠ [] → flush w = [w].
Proof. by destruct w. Qed.

Lemma split_join (words : list str) :
  Forall proper_word words → split (join words) = words.
Proof.
  unfold split.
  induction 1 as [|w rest [Hne Hw] Hrest IH]; [done|].
  destruct rest as [|w' rest].
  - pose proof (split_from_spaceless [] w [] Hw) as Hsplit.
    rewrite app_nil_r in Hsplit. simpl in *. rewrite Hsplit.
    by apply flush_proper.
  - change (join (w :: w' :: rest)) with (w ++ space :: join (w' :: rest)).
    rewrite split_from_spaceless by done.
    cbn [app split_from].
    change (isspace space) with true. cbn iota.
    by rewrite IH, flush_proper.
Qed.

Lemma flush_Forall_proper (cur : str) :
  spaceless cur → Forall proper_word (flush cur).
Proof.
  destruct cur as [|c cur]; intros Hcur; simpl; [constructor|].
  constructor; [|constructor]. by split.
Qed.

Lemma split_from_proper (cur s : str) :
  spaceless cur → Forall proper_word (split_from cur s).
Proof.
  revert cur. induction s as [|c s IH]; intros cur Hcur; simpl.
  - by apply flush_Forall_proper.
  - destruct (isspace c) eqn:Hc.
    + apply Forall_app. split; [by apply flush_Forall_proper|].
      apply IH. constructor.
    + apply IH, Forall_app. split; [done|].
      constructor; [done|constructor].
Qed.

Lemma split_proper (s : str) : Forall proper_word (split s).
Proof. apply split_from_proper. constructor. Qed.

Lemma map_fixed {A} (f : A → A) (xs : list A) :
  Forall (λ x, f x = x) xs → map f xs = xs.
Proof. induction 1; simpl; congruence. Qed.

(** ** The normaliser [unique_vals] *)

Section NormalizerFacts.

Variable EMOJI_DATA : char → bool.

Lemma all_chars_fromkeys (p : char → bool) (w : str) :
  all_chars p w = true → all_chars p (fromkeys w) = true.
Proof.
  unfold all_chars. rewrite !forallb_forall. intros Hall c Hc.
  apply Hall. apply list_elem_of_In, elem_of_fromkeys, list_elem_of_In, Hc.
Qed.

Lemma process_word_idemp (w : str) :
  process_word EMOJI_DATA (process_word EMOJI_DATA w)
  = process_word EMOJI_DATA w.
Proof.
  unfold process_word.
  destruct (all_chars EMOJI_DATA w) eqn:Hw.
  - by rewrite all_chars_fromkeys, fromkeys_idemp.
  - by rewrite Hw.
Qed.

Lemma process_word_proper (w : str) :
  proper_word w → proper_word (process_word EMOJI_DATA w).
Proof.
  unfold process_word. intros [Hne Hw].
  destruct (all_chars EMOJI_DATA w); [|done].
  split.
  - intros Hnil. by apply fromkeys_nil_inv in Hnil.
  - unfold spaceless in *. rewrite Forall_forall in Hw.
    apply Forall_forall. intros c Hc.
    apply Hw. by apply (elem_of_fromkeys c w).
Qed.

Lemma process_word_NoDup (w : str) :
  all_chars EMOJI_DATA (process_word EMOJI_DATA w) = true →
  NoDup (process_word EMOJI_DATA w).
Proof.
  unfold process_word.
  destruct (all_chars EMOJI_DATA w) eqn:Hw.
  - intros _. apply NoDup_fromkeys.
  - congruence.
Qed.

Lemma unique_words_proper (s : str) : Forall proper_word (unique_words EMOJI_DATA s).
Proof.
  apply Forall_forall. intros w Hw.
  apply elem_of_fromkeys, list_elem_of_In, in_map_iff in Hw as (w0 & <- & Hw0).
  apply process_word_proper.
  pose proof (split_proper s) as Hs. rewrite Forall_forall in Hs.
  by apply Hs, list_elem_of_In.
Qed.

Lemma split_process_text (s : str) :
  split (process_text EMOJI_DATA (SStr s)) = unique_words EMOJI_DATA s.
Proof. apply split_join, unique_words_proper. Qed.

Lemma unique_words_fixed (s : str) :
  fromkeys (map (process_word EMOJI_DATA) (unique_words EMOJI_DATA s)) = unique_words EMOJI_DATA s.
Proof.
  rewrite map_fixed.
  - apply fromkeys_idemp.
  - apply Forall_forall. intros w Hw.
    apply elem_of_fromkeys, list_elem_of_In, in_map_iff in Hw as (w0 & <- & _).
    apply process_word_idemp.
Qed.

Lemma process_text_idemp (s : str) :
  process_text EMOJI_DATA (SStr (process_text EMOJI_DATA (SStr s)))
  = process_text EMOJI_DATA (SStr s).
Proof.
  cbn [process_text].
  change (fromkeys (map (process_word EMOJI_DATA) (split s)))
    with (unique_words EMOJI_DATA s).
  pose proof (split_process_text s) as Hsplit. cbn [process_text] in Hsplit.
  change (fromkeys (map (process_word EMOJI_DATA) (split s)))
    with (unique_words EMOJI_DATA s) in Hsplit.
  by rewrite Hsplit, unique_words_fixed.
Qed.

(** C10. [unique_vals] is idempotent on strings: normalising a string
    returns a string on which a second normalisation changes nothing; in
    the normalised string every white-space-delimited word occurs once and
    every word made of emoji only has no repeated character. *)
Theorem unique_vals_idempotent (s : str) :
  ∃ t : str,
    unique_vals EMOJI_DATA (Scalar (SStr s)) = Ok (Scalar (SStr t))
    ∧ unique_vals EMOJI_DATA (Scalar (SStr t)) = Ok (Scalar (SStr t))
    ∧ NoDup (split t)
    ∧ Forall (λ w, all_chars EMOJI_DATA w = true → NoDup w) (split t).
Proof.
  exists (process_text EMOJI_DATA (SStr s)).
  split; [done|]. split.
  { cbn [unique_vals]. by rewrite process_text_idemp. }
  rewrite split_process_text. split.
  - apply NoDup_fromkeys.
  - apply Forall_forall. intros w Hw.
    apply elem_of_fromkeys, list_elem_of_In, in_map_iff in Hw as (w0 & <- & _).
    apply process_word_NoDup.
Qed.

End NormalizerFacts.

(** ** Null and non-string input of the normalisers *)

(** C3, as the code has it.  Inside a DataFrame, a cell of the ['content']
    column that is null or not a string is normalised to the empty string
    by [emoji_only] and by [unique_vals], and neither call raises. *)
Theorem non_string_cell_normalised (EMOJI_DATA : char → bool)
    (content : list scalar) (i : nat) (x : scalar) :
  content !! i = Some x →
  is_str x = false →
  ∃ out1 out2 : list scalar,
    emoji_only EMOJI_DATA (Frame content) = Ok (Frame out1)
    ∧ length out1 = length content
    ∧ out1 !! i = Some (SStr [])
    ∧ unique_vals EMOJI_DATA (Frame content) = Ok (Frame out2)
    ∧ length out2 = length content
    ∧ out2 !! i = Some (SStr []).
Proof.
  intros Hi Hx. eexists _, _.
  split; [reflexivity|]. split; [by rewrite length_map|].
  split.
  { change map with (@fmap list _) at 1. rewrite list_lookup_fmap, Hi.
    by destruct x. }
  split; [reflexivity|]. split; [by rewrite length_map|].
  change map with (@fmap list _) at 1. rewrite list_lookup_fmap, Hi.
  by destruct x.
Qed.

Lemma non_string_cell_normalised_witness :
  ∃ out1 out2 : list scalar,
    emoji_only sample_emoji (Frame [SStr [ch_a; grin]; SNull])
    = Ok (Frame out1)
    ∧ length out1 = 2%nat
    ∧ out1 !! 1%nat = Some (SStr [])
    ∧ unique_vals sample_emoji (Frame [SStr [ch_a; grin]; SNull])
      = Ok (Frame out2)
    ∧ length out2 = 2%nat
    ∧ out2 !! 1%nat = Some (SStr []).
Proof.
  apply (non_string_cell_normalised sample_emoji
           [SStr [ch_a; grin]; SNull] 1 SNull); reflexivity.
Defined.

(** C3, as stated, fails: called on a null, or on a number, either
    normaliser raises [AttributeError] (from [input_data.copy()]) instead
    of returning an empty result. *)
Lemma null_argument_raises :
  emoji_only sample_emoji (Scalar SNull) = Raise AttributeError
  ∧ unique_vals sample_emoji (Scalar SNull) = Raise AttributeError
  ∧ emoji_only sample_emoji (Scalar (SNum 7)) ≠ Ok (Scalar (SStr []))
  ∧ unique_vals sample_emoji (Scalar (SNum 7)) ≠ Ok (Scalar (SStr [])).
Proof. repeat split; done. Qed.

(** ** The lift filter *)

Section LiftFilterFacts.

Context {num : Type} {F : Arith num}.

Lemma lift_filter_filter (d : num) (neg : bool) (rules : rule_frame num) :
  lift_filter d neg rules = List.filter (λ row, lift_mask d neg row.2) rules.
Proof. apply (boolean_index_filter (λ row, lift_mask d neg row.2)). Qed.

(** A row survives the lift filter exactly when it passes the test of the
    lambda. *)
Lemma elem_of_lift_filter (d : num) (neg : bool) (rules : rule_frame num)
    (row : nat * rule num) :
  row ∈ lift_filter d neg rules ↔ row ∈ rules ∧ lift_mask d neg row.2 = true.
Proof. by rewrite lift_filter_filter, elem_of_List_filter. Qed.

End LiftFilterFacts.

(** In double precision the bounds are the rounded sum and the rounded
    difference of the doubles 1 and [lift_distance]. *)
Lemma lift_mask_binary64 (lift_distance : float) (neg : bool)
    (row : rule float) :
  lift_mask lift_distance neg row
  = if neg
    then ((1 + lift_distance <=? lift row)%float
          || (lift row <=? 1 - lift_distance)%float)
    else (1 + lift_distance <=? lift row)%float.
Proof. reflexivity. Qed.

(** C6, as the code has it.  A generated rule survives the lift filter
    exactly when its lift is at least [1 + lift_distance] or, with
    [find_negative_correlations] set, at most [1 - lift_distance], where
    the sum, the difference and the two inclusive comparisons are those of
    double-precision arithmetic: the bounds are the rounded sum and the
    rounded difference. *)
Theorem lift_filter_survivors (lift_distance : float)
    (rules : rule_frame float) (row : nat * rule float) :
  (row ∈ lift_filter lift_distance false rules ↔
     row ∈ rules ∧ (1 + lift_distance <=? lift row.2)%float = true)
  ∧ (row ∈ lift_filter lift_distance true rules ↔
       row ∈ rules
       ∧ ((1 + lift_distance <=? lift row.2)%float = true
          ∨ (lift row.2 <=? 1 - lift_distance)%float = true)).
Proof.
  rewrite !elem_of_lift_filter, !lift_mask_binary64, orb_true_iff. tauto.
Qed.

(** C6, as stated, fails in double precision.  With the doubles nearest to
    0.2 and 1.2 as [lift_distance] and lift, the rule survives although
    its lift is below [1 + lift_distance] (the sum rounds down to the
    lift).  With the doubles nearest to 0.9 and 0.1 and negative
    correlations included, the rule is dropped although 0.1 is
    [1 - 0.9]. *)
Lemma lift_bounds_are_rounded :
  lift_filter (F:=binary64) double_0_2 false [rule_lift_1_2] = [rule_lift_1_2]
  ∧ ¬ (1 + exact_value double_0_2 <= exact_value double_1_2)%Q
  ∧ lift_filter (F:=binary64) double_0_9 true [rule_lift_0_1] = []
  ∧ (1 # 10 <= 1 - (9 # 10))%Q.
Proof.
  split; [vm_compute; reflexivity|].
  split; [vm_compute; by intros H; apply H|].
  split; [vm_compute; reflexivity|].
  vm_compute. discriminate.
Qed.

(** ** The deduplication pass *)

Section DedupFacts.

Context {num : Type}.

Lemma apply_each_imap {A B} (f : A → result B) (g : nat → A → B)
    (xs : list A) :
  (∀ i x, xs !! i = Some x → f x = Ok (g i x)) →
  apply_each f xs = Ok (imap g xs).
Proof.
  revert g. induction xs as [|a xs IH]; intros g Hfg; [done|].
  cbn [apply_each imap].
  rewrite (Hfg 0%nat a eq_refl). cbn.
  rewrite (IH (g ∘ S)); [done|].
  intros i x Hi. by apply (Hfg (S i)).
Qed.

Lemma index_NoDup (index_list : list nat) (pos idx : nat) :
  NoDup index_list → index_list !! pos = Some idx →
  index idx index_list = Ok pos.
Proof.
  intros Hnd Hpos. unfold index.
  destruct (list_find _ _) as [[j y]|] eqn:Hfind.
  - apply list_find_Some in Hfind as (Hj & -> & _).
    f_equal. by eapply NoDup_lookup.
  - apply list_find_None in Hfind. rewrite Forall_forall in Hfind.
    exfalso. eapply Hfind; [|done]. by eapply list_elem_of_lookup_2.
Qed.

Lemma check_duplicate_at (rules : rule_frame num) (i : nat)
    (row : nat * rule num) :
  NoDup rules.*1 → rules !! i = Some row →
  check_duplicate rules row = Ok (mirrors_previous rules i row).
Proof.
  intros Hnd Hi. unfold check_duplicate.
  rewrite (index_NoDup _ i) by (by rewrite ?list_lookup_fmap, ?Hi).
  cbn. destruct i as [|j]; [done|].
  cbn. rewrite Nat.sub_0_r. unfold iloc.
  destruct (rules !! j) as [prev|] eqn:Hj; [done|].
  apply lookup_ge_None in Hj. apply lookup_lt_Some in Hi. lia.
Qed.

(** The mask of the pass never raises on a frame with distinct labels. *)
Lemma duplicate_mask (rules : rule_frame num) :
  NoDup rules.*1 →
  apply_each (check_duplicate rules) rules
  = Ok (imap (mirrors_previous rules) rules).
Proof. intros Hnd. apply apply_each_imap. intros. by apply check_duplicate_at. Qed.

Lemma remove_duplicates_eq (rules : rule_frame num) :
  NoDup rules.*1 →
  remove_duplicates rules
  = Ok (boolean_index (negb <$> imap (mirrors_previous rules) rules) rules).
Proof. intros Hnd. unfold remove_duplicates. by rewrite duplicate_mask. Qed.

(** C1, as the code has it.  On a lift-filtered frame (its labels are
    distinct) the pass does not raise, and the row at position [i] is
    dropped exactly when [i > 0] and the row mirrors the row at position
    [i - 1] of that frame, whether or not that row is itself dropped. *)
Theorem duplicate_dropped_iff_mirrors_previous_row (rules : rule_frame num) :
  NoDup rules.*1 →
  ∃ mask : list bool,
    apply_each (check_duplicate rules) rules = Ok mask
    ∧ remove_duplicates rules = Ok (boolean_index (negb <$> mask) rules)
    ∧ length mask = length rules
    ∧ ∀ (i : nat) (row : nat * rule num),
        rules !! i = Some row →
        (mask !! i = Some true ↔
           (0 < i)%nat
           ∧ ∃ prev_row, rules !! (i - 1)%nat = Some prev_row
               ∧ antecedents row.2 = consequents prev_row.2
               ∧ consequents row.2 = antecedents prev_row.2).
Proof.
  intros Hnd. exists (imap (mirrors_previous rules) rules).
  split; [by apply duplicate_mask|].
  split; [by apply remove_duplicates_eq|].
  split; [by rewrite length_imap|].
  intros i row Hi. rewrite list_lookup_imap, Hi. cbn.
  destruct i as [|j]; cbn.
  - split; [done|]. intros [? _]. lia.
  - rewrite Nat.sub_0_r. destruct (rules !! j) as [prev|] eqn:Hj.
    + unfold mirror. split.
      * intros [= Hm]. apply andb_true_iff in Hm as [H1 H2].
        apply bool_decide_eq_true in H1, H2.
        split; [lia|]. by exists prev.
      * intros (_ & prev' & [= <-] & H1 & H2).
        by rewrite !bool_decide_eq_true_2.
    + split; [done|]. by intros (_ & prev' & ? & _).
Qed.

(** The pass, read as a recursion over the frame. *)
Lemma boolean_index_adjacent (pre suf : rule_frame num) :
  boolean_index
    (negb <$> imap (λ i, mirrors_previous (pre ++ suf) (length pre + i)) suf)
    suf
  = dedup_adjacent (snd <$> last pre) suf.
Proof.
  revert pre. induction suf as [|row rest IH]; intros pre; [done|].
  cbn [imap fmap list_fmap boolean_index dedup_adjacent].
  assert (mirrors_previous (pre ++ row :: rest) (length pre + 0) row
          = mirrors_opt row.2 (snd <$> last pre)) as ->.
  { rewrite Nat.add_0_r. destruct pre as [|x pre _] using rev_ind; [done|].
    rewrite last_snoc, length_app. cbn [length].
    rewrite Nat.add_1_r. cbn [mirrors_previous].
    rewrite <- app_assoc, lookup_app_r by lia.
    by rewrite Nat.sub_diag. }
  specialize (IH (pre ++ [row])).
  rewrite last_snoc, <- app_assoc in IH. cbn [app fmap option_fmap option_map] in IH.
  rewrite <- IH.
  assert (imap ((λ i, mirrors_previous (pre ++ row :: rest) (length pre + i))
                ∘ S) rest
          = imap (λ i, mirrors_previous (pre ++ row :: rest)
                         (length (pre ++ [row]) + i)) rest) as ->.
  { apply imap_ext. intros i x _. cbn. rewrite length_app. cbn.
    f_equal. lia. }
  by destruct (mirrors_opt row.2 (snd <$> last pre)).
Qed.

Lemma remove_duplicates_adjacent (rules : rule_frame num) :
  NoDup rules.*1 → remove_duplicates rules = Ok (dedup_adjacent None rules).
Proof.
  intros Hnd. rewrite remove_duplicates_eq by done.
  f_equal. apply (boolean_index_adjacent [] rules).
Qed.

Lemma mirror_sides (r p : rule num) :
  mirror r p = true ↔ sides r = (consequents p, antecedents p).
Proof.
  unfold mirror, sides.
  rewrite andb_true_iff, !bool_decide_eq_true. split.
  - by intros [-> ->].
  - by intros [= -> ->].
Qed.

(** When no (antecedents, consequents) pair occurs twice in the frame, as
    in the rows [association_rules] generates, comparing with the preceding
    row and comparing with the preceding retained row drop the same rows. *)
Lemma dedup_adjacent_retained (prev last : option (rule num))
    (rules : rule_frame num) :
  NoDup (sides ∘ snd <$> rules) →
  (∀ l, last = Some l → sides l ∉ (sides ∘ snd <$> rules)) →
  (∀ p, prev = Some p → sides p ∉ (sides ∘ snd <$> rules)) →
  (prev = last
   ∨ ∃ p l, prev = Some p ∧ last = Some l
            ∧ sides p = (consequents l, antecedents l)) →
  dedup_adjacent prev rules = dedup_retained last rules.
Proof.
  revert prev last.
  induction rules as [|row rest IH]; intros prev last Hnd Hlast Hprev Hrel;
    [done|].
  rewrite fmap_cons in Hnd, Hlast, Hprev. apply NoDup_cons in Hnd as [Hrow Hnd].
  cbn [dedup_adjacent dedup_retained].
  destruct Hrel as [->|(p & l & -> & -> & Hpl)].
  - destruct (mirrors_opt row.2 last) eqn:Hm.
    + destruct last as [l|]; [|done]. cbn in Hm. apply mirror_sides in Hm.
      apply IH; [done| | |].
      * intros l' [= <-]. specialize (Hlast l eq_refl).
        by apply not_elem_of_cons in Hlast as [_ ?].
      * by intros p [= <-].
      * right. by exists row.2, l.
    + f_equal. apply IH; [done| | |by left]; by intros p [= <-].
  - specialize (Hlast l eq_refl). specialize (Hprev p eq_refl).
    apply not_elem_of_cons in Hlast as [Hl _].
    apply not_elem_of_cons in Hprev as [Hp _].
    cbn [mirrors_opt].
    destruct (mirror row.2 p) eqn:Hmp.
    { apply mirror_sides in Hmp. exfalso. apply Hl. cbn. rewrite Hmp.
      unfold sides in *. destruct p, l. cbn in *. congruence. }
    destruct (mirror row.2 l) eqn:Hml.
    { apply mirror_sides in Hml. exfalso. apply Hp. cbn. congruence. }
    f_equal. apply IH; [done| | |by left]; by intros q [= <-].
Qed.

(** X20. On a frame with distinct labels in which no (antecedents,
    consequents) pair occurs twice, the pass returns what a comparison of
    every row with the last retained row returns. *)
Lemma remove_duplicates_retained (rules : rule_frame num) :
  NoDup rules.*1 → NoDup (sides ∘ snd <$> rules) →
  remove_duplicates rules = Ok (dedup_retained None rules).
Proof.
  intros Hl Hs. rewrite remove_duplicates_adjacent by done.
  f_equal. apply dedup_adjacent_retained; [done| | |by left]; done.
Qed.

End DedupFacts.

Lemma duplicate_dropped_witness :
  ∃ mask : list bool,
    apply_each (check_duplicate aba_frame) aba_frame = Ok mask
    ∧ remove_duplicates aba_frame
      = Ok (boolean_index (negb <$> mask) aba_frame)
    ∧ length mask = length aba_frame
    ∧ ∀ (i : nat) (row : nat * rule float),
        aba_frame !! i = Some row →
        (mask !! i = Some true ↔
           (0 < i)%nat
           ∧ ∃ prev_row, aba_frame !! (i - 1)%nat = Some prev_row
               ∧ antecedents row.2 = consequents prev_row.2
               ∧ consequents row.2 = antecedents prev_row.2).
Proof.
  apply (duplicate_dropped_iff_mirrors_previous_row aba_frame).
  apply (bool_decide_unpack (NoDup aba_frame.*1)). vm_compute. exact I.
Defined.

(** C1, as stated, fails on the frame A→B, B→A, A→B: comparing with the
    preceding retained rule keeps the third row; the pass drops it, since
    it mirrors the second row. *)
Lemma third_rule_dropped :
  remove_duplicates aba_frame = Ok [(0%nat, rule_ab)]
  ∧ dedup_retained None aba_frame = [(0%nat, rule_ab); (2%nat, rule_ab)]
  ∧ remove_duplicates aba_frame ≠ Ok (dedup_retained None aba_frame).
Proof.
  assert (remove_duplicates aba_frame = Ok [(0%nat, rule_ab)]) as Hcode
    by (vm_compute; reflexivity).
  assert (dedup_retained None aba_frame
          = [(0%nat, rule_ab); (2%nat, rule_ab)]) as Hspec
    by (vm_compute; reflexivity).
  rewrite Hcode, Hspec. repeat split. intros [=].
Qed.

(** ** The analyzer as a whole *)

Lemma boolean_index_sublist {A} (mask : list bool) (xs : list A) :
  boolean_index mask xs `sublist_of` xs.
Proof.
  revert mask. induction xs as [|x xs IH]; intros [|[] mask]; cbn;
    try apply sublist_nil_l.
  - by apply sublist_skip.
  - by apply sublist_cons.
Qed.

Lemma range_index_labels {A} (xs : list A) :
  (range_index xs).*1 = seq 0 (length xs).
Proof. unfold range_index. apply fst_zip. by rewrite length_seq. Qed.

Section AnalyzerFacts.

Context {num : Type} {F : Arith num}.
Variable fpgrowth : onehot_frame → num → result (list (itemset_row num)).
Variable association_rules :
  list (itemset_row num) → nat → num → result (list (rule num)).

Lemma lift_filter_labels (d : num) (neg : bool) (rs : list (rule num)) :
  NoDup (lift_filter d neg (range_index rs)).*1.
Proof.
  apply (sublist_NoDup _ (range_index rs).*1).
  - rewrite range_index_labels. apply NoDup_seq.
  - apply (fmap_sublist fst), boolean_index_sublist.
Qed.

(** What a run of the analyzer logs and returns. *)
Lemma analyzer_run (onehot : onehot_frame) (s c d : num) (neg : bool) :
  market_basket_analyzer fpgrowth association_rules onehot s c d neg []
  = match fpgrowth onehot s with
    | inl e => ([Mining s], Raise e)
    | inr [] => ([Mining s], Ok (MBA [] []))
    | inr fi =>
        match association_rules fi (length fi) c with
        | inl e => ([Mining s; RuleGeneration (length fi) c], Raise e)
        | inr [] =>
            ([Mining s; RuleGeneration (length fi) c],
             Raise ZeroDivisionError)
        | inr rs =>
            ([Mining s; RuleGeneration (length fi) c],
             Ok (MBA fi (dedup_adjacent None
                           (lift_filter d neg (range_index rs)))))
        end
    end.
Proof.
  unfold market_basket_analyzer, tbind, call, lift_result, tret. cbn.
  destruct (fpgrowth onehot s) as [e|[|r fi]]; [done..|].
  destruct (association_rules _ _ c) as [e|[|r0 rs]]; [done..|].
  by rewrite remove_duplicates_adjacent by apply lift_filter_labels.
Qed.

(** C5. When the miner finds no itemset that meets the support threshold,
    the analyzer returns empty itemsets and empty rules, and the only
    library call it has made is the mining call: the rule generator is not
    invoked. *)
Theorem no_frequent_itemsets_skips_rules (onehot : onehot_frame)
    (support confidence lift_distance : num)
    (find_negative_correlations : bool) :
  fpgrowth onehot support = Ok [] →
  market_basket_analyzer fpgrowth association_rules onehot support
    confidence lift_distance find_negative_correlations []
  = ([Mining support], Ok (MBA [] [])).
Proof. intros Hempty. by rewrite analyzer_run, Hempty. Qed.


End AnalyzerFacts.

Lemma no_frequent_itemsets_witness :
  market_basket_analyzer (F:=binary64) (Mlxtend.fpgrowth (F:=binary64))
    (Mlxtend.association_rules (F:=binary64)) sample_onehot 1%float
    0.125%float 0.125%float false []
  = ([Mining 1%float], Ok (MBA [] [])).
Proof.
  apply (no_frequent_itemsets_skips_rules (F:=binary64)
           (Mlxtend.fpgrowth (F:=binary64))
           (Mlxtend.association_rules (F:=binary64)) sample_onehot 1%float).
  vm_compute. reflexivity.
Defined.


(** ** The order on strings and the sorted classes *)

Global Instance str_le_total : Total str_le.
Proof.
  intros a b. unfold str_le.
  destruct (trichotomyT lexico a b) as [[?|?]|?]; auto.
Qed.

Global Instance str_le_trans : Transitive str_le.
Proof.
  intros a b c [->|Hab] [->|Hbc]; unfold str_le; auto.
  right. by etrans.
Qed.

Global Instance str_le_antisymm : AntiSymm (=) str_le.
Proof.
  intros a b [?|Hab] [?|Hba]; auto.
  exfalso. apply (irreflexivity lexico a). by etrans.
Qed.

Lemma StronglySorted_strict (l : list str) :
  StronglySorted str_le l → NoDup l → StronglySorted lexico l.
Proof.
  induction 1 as [|a l Hl IH Ha]; intros Hnd; [constructor|].
  apply NoDup_cons in Hnd as [Hal Hnd].
  constructor; [by apply IH|].
  rewrite Forall_forall in Ha. apply Forall_forall. intros b Hb.
  destruct (Ha b Hb) as [->|Hlt]; done.
Qed.

Lemma elem_of_concat {A} (x : A) (ls : list (list A)) :
  x ∈ concat ls ↔ ∃ l, l ∈ ls ∧ x ∈ l.
Proof.
  rewrite list_elem_of_In, in_concat.
  split; intros (l & H1 & H2); exists l; by rewrite ?list_elem_of_In in *.
Qed.

Lemma classes_Permutation (y : list (list str)) :
  classes_ y ≡ₚ first_encounter y.
Proof. apply merge_sort_Permutation. Qed.

Lemma classes_sorted (y : list (list str)) : StronglySorted str_le (classes_ y).
Proof. apply StronglySorted_merge_sort; apply _. Qed.

Lemma classes_NoDup (y : list (list str)) : NoDup (classes_ y).
Proof. rewrite classes_Permutation. apply NoDup_fromkeys. Qed.

Lemma elem_of_classes (y : list (list str)) (item : str) :
  item ∈ classes_ y ↔ ∃ labels, labels ∈ y ∧ item ∈ labels.
Proof.
  rewrite classes_Permutation. unfold first_encounter.
  by rewrite elem_of_fromkeys, elem_of_concat.
Qed.

Lemma binarize_rows (transactions : list (list str)) :
  rows (binarize transactions)
  = presence (columns (binarize transactions)) transactions.
Proof.
  cbn. unfold astype_bool, fit_transform, presence.
  rewrite map_map. apply map_ext. intros txn.
  rewrite map_map. apply map_ext. intros item.
  by destruct (bool_decide (item ∈ txn)).
Qed.

Lemma presence_lookup (cols : list str) (transactions : list (list str))
    (t : nat) (txn : list str) :
  transactions !! t = Some txn →
  presence cols transactions !! t
  = Some (map (λ item, bool_decide (item ∈ txn)) cols).
Proof.
  intros Ht. unfold presence.
  change (map ?f transactions) with (f <$> transactions).
  by rewrite list_lookup_fmap, Ht.
Qed.

Section BuilderFacts.

Context {num : Type} {F : Arith num}.
Variable EMOJI_DATA : char → bool.

Lemma built_binarize (data : list scalar) (test_mode : bool)
    (min_support : num) (df : onehot_frame) (transactions : list (list str)) :
  built EMOJI_DATA data test_mode min_support df transactions →
  df = binarize transactions.
Proof.
  intros [[Htx Hdf]|(raw & Hraw & Hfiltered & Hdf)].
  - unfold prepare_emoji_data in Hdf. rewrite Htx in Hdf. cbn in Hdf.
    by injection Hdf.
  - unfold prepare_emoji_word_data in Hdf. rewrite Hraw in Hdf. cbn in Hdf.
    rewrite Hfiltered in Hdf. cbn in Hdf. by injection Hdf.
Qed.

End BuilderFacts.

Lemma sample_built :
  built (F:=binary64) sample_emoji sample_data false 0%float sample_frame
    sample_transactions.
Proof.
  right. exists sample_transactions.
  split; [vm_compute; reflexivity|].
  split; vm_compute; reflexivity.
Defined.

Section BuilderTheorems.

Context {num : Type} {F : Arith num}.
Variable EMOJI_DATA : char → bool.
Variable data : list scalar.
Variable test_mode : bool.
Variable min_support : num.
Variable df : onehot_frame.
Variable transactions : list (list str).

(** C8. In the frame a builder returns there is one row per transaction,
    in order; every item of a transaction has a column, and the cell of
    row [t] under the column of an item is true exactly when the item is a
    member of transaction [t], and false exactly when it is not. *)
Theorem presence_matrix_membership :
  built EMOJI_DATA data test_mode min_support df transactions →
  length (rows df) = length transactions
  ∧ ∀ (t : nat) (txn : list str),
      transactions !! t = Some txn →
      ∃ row : list bool,
        rows df !! t = Some row
        ∧ length row = length (columns df)
        ∧ (∀ item, item ∈ txn →
             ∃ j, columns df !! j = Some item ∧ row !! j = Some true)
        ∧ (∀ (j : nat) (item : str),
             columns df !! j = Some item →
             (row !! j = Some true ↔ item ∈ txn)
             ∧ (row !! j = Some false ↔ item ∉ txn)).
Proof.
  intros Hb. apply built_binarize in Hb as ->.
  rewrite binarize_rows. split; [unfold presence; by rewrite length_map|].
  intros t txn Ht. eexists. split; [by apply presence_lookup|].
  split; [by rewrite length_map|].
  assert (∀ j item, columns (binarize transactions) !! j = Some item →
            map (λ item, bool_decide (item ∈ txn))
                (columns (binarize transactions)) !! j
            = Some (bool_decide (item ∈ txn))) as Hcell.
  { intros j item Hj.
    change (map ?f ?l) with (f <$> l). by rewrite list_lookup_fmap, Hj. }
  split.
  - intros item Hin.
    assert (item ∈ columns (binarize transactions)) as Hcol.
    { cbn. apply elem_of_classes. exists txn. split; [|done].
      by eapply list_elem_of_lookup_2. }
    apply list_elem_of_lookup_1 in Hcol as [j Hj]. exists j.
    split; [done|]. rewrite (Hcell j item Hj).
    by rewrite bool_decide_eq_true_2.
  - intros j item Hj. rewrite (Hcell j item Hj). split.
    + split; [intros [= Hd]; by apply bool_decide_eq_true in Hd|].
      intros Hin. by rewrite bool_decide_eq_true_2.
    + split; [intros [= Hd]; by apply bool_decide_eq_false in Hd|].
      intros Hin. by rewrite bool_decide_eq_false_2.
Qed.

(** C9. The columns of the frame a builder returns are exactly the distinct
    items of the (filtered) transactions, in strictly ascending order of
    their string values, so without duplicates. *)
Theorem columns_sorted_distinct_items :
  built EMOJI_DATA data test_mode min_support df transactions →
  StronglySorted lexico (columns df)
  ∧ NoDup (columns df)
  ∧ ∀ item : str,
      item ∈ columns df ↔ ∃ txn, txn ∈ transactions ∧ item ∈ txn.
Proof.
  intros Hb. apply built_binarize in Hb as ->. cbn.
  split; [|split].
  - apply StronglySorted_strict; [apply classes_sorted|apply classes_NoDup].
  - apply classes_NoDup.
  - apply elem_of_classes.
Qed.

(** C2, as the code has it.  The columns of the frame a builder returns are
    the vocabulary rearranged in ascending order: they are in first-encounter
    order exactly when that order is already ascending.  The rows follow the
    transactions in input order. *)
Theorem columns_are_sorted_vocabulary :
  built EMOJI_DATA data test_mode min_support df transactions →
  columns df ≡ₚ first_encounter transactions
  ∧ StronglySorted str_le (columns df)
  ∧ (columns df = first_encounter transactions ↔
       StronglySorted str_le (first_encounter transactions))
  ∧ rows df = presence (columns df) transactions.
Proof.
  intros Hb. apply built_binarize in Hb as ->.
  split; [apply classes_Permutation|].
  split; [apply classes_sorted|].
  split; [|apply binarize_rows].
  cbn. split.
  - intros <-. apply classes_sorted.
  - intros Hsorted.
    apply (StronglySorted_unique str_le); [apply classes_sorted|done|].
    apply classes_Permutation.
Qed.

End BuilderTheorems.

Lemma presence_matrix_witness :
  length (rows sample_frame) = length sample_transactions
  ∧ ∀ (t : nat) (txn : list str),
      sample_transactions !! t = Some txn →
      ∃ row : list bool,
        rows sample_frame !! t = Some row
        ∧ length row = length (columns sample_frame)
        ∧ (∀ item, item ∈ txn →
             ∃ j, columns sample_frame !! j = Some item
                  ∧ row !! j = Some true)
        ∧ (∀ (j : nat) (item : str),
             columns sample_frame !! j = Some item →
             (row !! j = Some true ↔ item ∈ txn)
             ∧ (row !! j = Some false ↔ item ∉ txn)).
Proof.
  exact (presence_matrix_membership sample_emoji sample_data false 0%float
           sample_frame sample_transactions sample_built).
Defined.

Lemma columns_sorted_witness :
  StronglySorted lexico (columns sample_frame)
  ∧ NoDup (columns sample_frame)
  ∧ ∀ item : str,
      item ∈ columns sample_frame ↔
      ∃ txn, txn ∈ sample_transactions ∧ item ∈ txn.
Proof.
  exact (columns_sorted_distinct_items sample_emoji sample_data false 0%float
           sample_frame sample_transactions sample_built).
Defined.

Lemma columns_vocabulary_witness :
  columns sample_frame ≡ₚ first_encounter sample_transactions
  ∧ StronglySorted str_le (columns sample_frame)
  ∧ (columns sample_frame = first_encounter sample_transactions ↔
       StronglySorted str_le (first_encounter sample_transactions))
  ∧ rows sample_frame = presence (columns sample_frame) sample_transactions.
Proof.
  exact (columns_are_sorted_vocabulary sample_emoji sample_data false 0%float
           sample_frame sample_transactions sample_built).
Defined.

(** C2, as stated, fails: on the posts ["b a"] and ["a 😀😀"] the builder
    first meets ["b"], then ["a"], but the columns start with ["a"]. *)
Lemma first_encounter_order_not_kept :
  built (F:=binary64) sample_emoji sample_data false 0%float sample_frame
    sample_transactions
  ∧ first_encounter sample_transactions = [[ch_b]; [ch_a]; [grin]]
  ∧ columns sample_frame = [[ch_a]; [ch_b]; [grin]]
  ∧ columns sample_frame ≠ first_encounter sample_transactions.
Proof.
  split; [apply sample_built|].
  split; [vm_compute; reflexivity|].
  split; [reflexivity|].
  vm_compute. intros [=].
Qed.

(** ** Pruning rare items in the word builder *)

Lemma filter_ext_elem {A} (P Q : A → Prop) `{∀ x, Decision (P x)}
    `{∀ x, Decision (Q x)} (l : list A) :
  (∀ x, x ∈ l → (P x ↔ Q x)) → filter P l = filter Q l.
Proof.
  induction l as [|a l IH]; intros HPQ; [done|].
  rewrite !filter_cons.
  rewrite IH by (intros x Hx; apply HPQ; by right).
  pose proof (HPQ a ltac:(by left)) as Ha.
  destruct (decide (P a)), (decide (Q a)); tauto.
Qed.

Lemma occ_snoc (item x : str) (l : list str) :
  occ item (l ++ [x]) = occ item l + (if decide (x = item) then 1 else 0).
Proof.
  unfold occ. rewrite filter_app, length_app, filter_cons, filter_nil.
  destruct (decide (x = item)); cbn; lia.
Qed.

Lemma occ_pos (item : str) (l : list str) : item ∈ l → 1 ≤ occ item l.
Proof.
  intros Hin. unfold occ.
  assert (item ∈ filter (λ x, x = item) l) as Hf
    by (by apply list_elem_of_filter).
  destruct (filter _ l); [by apply elem_of_nil in Hf|]. cbn. lia.
Qed.

Lemma count_items_concat (m : gmap str Z) (transactions : list (list str)) :
  foldl (λ item_counts transaction, foldl count_item item_counts transaction)
        m transactions
  = foldl count_item m (concat transactions).
Proof.
  revert m. induction transactions as [|t ts IH]; intros m; [done|].
  cbn. by rewrite foldl_app, IH.
Qed.

Lemma count_fold (l : list str) (item : str) :
  default 0 (foldl count_item ∅ l !! item) = occ item l
  ∧ (is_Some (foldl count_item ∅ l !! item) ↔ item ∈ l).
Proof.
  induction l as [|x l [IHc IHs]] using rev_ind.
  - cbn. rewrite lookup_empty. split; [done|].
    split; [by intros [? ?]|by intros ?%elem_of_nil].
  - rewrite foldl_app, occ_snoc. cbn [foldl]. unfold count_item at 1 3.
    rewrite elem_of_app, list_elem_of_singleton.
    destruct (decide (x = item)) as [->|Hne].
    + rewrite lookup_insert_eq. cbn. rewrite IHc. split; [done|].
      split; [by right|by eexists].
    + rewrite lookup_insert_ne by done. rewrite IHc, IHs.
      split; [lia|]. split; [by left|]. by intros [?|?].
Qed.

Lemma count_items_lookup (transactions : list (list str)) (item : str)
    (count : Z) :
  count_items transactions !! item = Some count ↔
  item ∈ concat transactions ∧ count = occurrences item transactions.
Proof.
  unfold count_items. rewrite count_items_concat.
  destruct (count_fold (concat transactions) item) as [Hc Hs].
  fold (occurrences item transactions) in Hc. split.
  - intros Hl. split; [apply Hs; by eexists|].
    rewrite Hl in Hc. by cbn in Hc.
  - intros [Hin ->]. apply Hs in Hin as [c Hl].
    rewrite Hl in Hc. cbn in Hc. by rewrite Hl, Hc.
Qed.

Lemma elem_of_frequent_items (transactions : list (list str)) (min_count : Z)
    (item : str) :
  item ∈ frequent_items_of (count_items transactions) min_count ↔
  item ∈ concat transactions ∧ min_count ≤ occurrences item transactions.
Proof.
  unfold frequent_items_of. rewrite elem_of_dom. split.
  - intros [count Hc]. apply map_lookup_filter_Some in Hc as [Hl Hc].
    apply count_items_lookup in Hl as [Hin ->]. by split.
  - intros [Hin Hc]. exists (occurrences item transactions).
    apply map_lookup_filter_Some. split; [|done].
    by apply count_items_lookup.
Qed.

Section PruningFacts.

Context {num : Type} {F : Arith num}.

(** The pruning loop in closed form: the items kept are those that occur
    at least [min_count] times over all transactions. *)
Lemma filter_transactions_occurrences (transactions : list (list str))
    (min_support : num) :
  filter_transactions transactions min_support
  = (min_count ← min_count_of min_support (length transactions);
     Ok (map (filter (λ item, min_count ≤ occurrences item transactions))
             transactions)).
Proof.
  unfold filter_transactions.
  destruct (min_count_of min_support (length transactions)) as [e|k];
    [done|].
  cbn. unfold Ok. f_equal.
  apply map_ext_in. intros txn Htxn. apply list_elem_of_In in Htxn.
  apply filter_ext_elem. intros item Hitem.
  assert (item ∈ concat transactions) as Hin
    by (apply elem_of_concat; by exists txn).
  rewrite elem_of_frequent_items. tauto.
Qed.

Lemma filter_transactions_Ok (transactions filtered : list (list str))
    (min_support : num) :
  filter_transactions transactions min_support = Ok filtered ↔
  ∃ min_count : Z,
    min_count_of min_support (length transactions) = Ok min_count
    ∧ filtered
      = map (filter (λ item, min_count ≤ occurrences item transactions))
            transactions.
Proof.
  rewrite filter_transactions_occurrences.
  destruct (min_count_of min_support (length transactions)) as [e|k]; cbn.
  - split; [done|]. by intros (k & Hk & _).
  - split.
    + intros [= <-]. by exists k.
    + by intros (k' & [= <-] & ->).
Qed.

Lemma filter_transactions_Raise (transactions : list (list str))
    (min_support : num) (e : exn) :
  filter_transactions transactions min_support = Raise e ↔
  min_count_of min_support (length transactions) = Raise e.
Proof.
  rewrite filter_transactions_occurrences.
  destruct (min_count_of min_support (length transactions)) as [e'|k];
    unfold Raise, Ok; cbn; split; congruence.
Qed.

Lemma filter_transactions_length (transactions filtered : list (list str))
    (min_support : num) :
  filter_transactions transactions min_support = Ok filtered →
  length filtered = length transactions.
Proof.
  intros (k & _ & ->)%filter_transactions_Ok. by rewrite length_map.
Qed.

End PruningFacts.

(** In double precision [min_count] is the integer part of the rounded
    product of the doubles [min_support] and [total_transactions]. *)
Lemma min_count_binary64 (min_support : float) (total_transactions : nat) :
  min_count_of min_support total_transactions
  = float_to_int
      (min_support * float_of_int (Z.of_nat total_transactions))%float.
Proof. reflexivity. Qed.

(** C7, as the code has it.  [min_count] is [int()] of the product as
    double-precision arithmetic gives it: the integer part of the rounded
    product, not the floor of the exact product.  When [int()] raises (a
    NaN or an infinite product), so does the builder.  Otherwise the
    filtered transactions are the transactions, one for one and in order,
    with exactly the items kept whose number of occurrences over all
    transactions is at least [min_count]; items below it are removed from
    every transaction, and no transaction is removed, even an emptied
    one. *)
Theorem rare_items_pruned (transactions : list (list str))
    (min_support : float) :
  match
    float_to_int
      (min_support * float_of_int (Z.of_nat (length transactions)))%float
  with
  | inl e => filter_transactions transactions min_support = Raise e
  | inr min_count =>
      ∃ filtered : list (list str),
        filter_transactions transactions min_support = Ok filtered
        ∧ filtered
          = map (filter (λ item, min_count ≤ occurrences item transactions))
                transactions
        ∧ length filtered = length transactions
  end.
Proof.
  rewrite filter_transactions_occurrences, min_count_binary64.
  destruct (float_to_int _) as [e|min_count]; [done|].
  eexists. split; [done|]. split; [done|]. by rewrite length_map.
Qed.

(** C7, as stated, fails, whichever number the double [min_support] is
    read as.  Read as its exact value: with the double nearest to 0.3 and
    ten transactions the floor of the product is 2, yet the item seen
    twice is removed, because the rounded product is 3.0.  Read as the
    decimal it was written as: with 0.58 and fifty transactions the floor
    of the product is 29, yet the item seen 28 times is kept, because the
    rounded product is just below 29. *)
Lemma min_count_is_not_the_floor :
  (Qfloor (exact_value double_0_3 * inject_Z 10) = 2
   ∧ occurrences [ch_a] ten_transactions = 2
   ∧ filter_transactions (F:=binary64) ten_transactions double_0_3
     = Ok (replicate 10 [[ch_b]])
   ∧ filter_transactions (F:=binary64) ten_transactions double_0_3
     ≠ Ok (map (filter (λ item,
                  Qfloor (exact_value double_0_3 * inject_Z 10)
                  ≤ occurrences item ten_transactions))
               ten_transactions))
  ∧ (Qfloor ((58 # 100) * inject_Z 50) = 29
     ∧ occurrences [ch_a] fifty_transactions = 28
     ∧ filter_transactions (F:=binary64) fifty_transactions double_0_58
       = Ok fifty_transactions
     ∧ filter_transactions (F:=binary64) fifty_transactions double_0_58
       ≠ Ok (map (filter (λ item,
                    Qfloor ((58 # 100) * inject_Z 50)
                    ≤ occurrences item fifty_transactions))
                 fifty_transactions)).
Proof.
  split.
  - split; [vm_compute; reflexivity|].
    split; [vm_compute; reflexivity|].
    split; [vm_compute; reflexivity|].
    vm_compute. intros [=].
  - split; [vm_compute; reflexivity|].
    split; [vm_compute; reflexivity|].
    split; [vm_compute; reflexivity|].
    vm_compute. intros [=].
Qed.

(** The pruning scenario in small: of four transactions with
    [min_support = 0.5] ([min_count = 2]), the item seen once goes, and the
    empty transaction stays. *)
Example rare_item_removed :
  filter_transactions (F:=binary64)
    [[[ch_a]; [ch_b]]; [[ch_a]]; [[ch_a]]; []] 0.5%float
  = Ok [[[ch_a]]; [[ch_a]]; [[ch_a]]; []].
Proof. vm_compute. reflexivity. Qed.

(** [min_count] in double precision: [int(0.003 * 1000)], the scenario of
    the specification, [int(0.58 * 50)], [int(0.3 * 10)],
    [int(0.6666666666666666 * 3)], [int(1.005 * 200)] and [int(-0.5 * 5)];
    and [int()] of a product that is not a number or not finite. *)
Example min_count_samples :
  min_count_of 0x1.89374bc6a7efap-9%float 1000 = Ok 3
  ∧ min_count_of double_0_58 50 = Ok 28
  ∧ min_count_of double_0_3 10 = Ok 3
  ∧ min_count_of 0x1.5555555555555p-1%float 3 = Ok 2
  ∧ min_count_of 0x1.0147ae147ae14p+0%float 200 = Ok 200
  ∧ min_count_of (-0.5)%float 5 = Ok (-2)
  ∧ min_count_of nan 3 = Raise ValueError
  ∧ min_count_of infinity 3 = Raise OverflowError
  ∧ min_count_of infinity 0 = Raise ValueError.
Proof. repeat split; vm_compute; reflexivity. Qed.

(** ** The builders return on string data *)

Lemma apply_each_total {A B} (f : A → result B) (xs : list A) :
  Forall (λ x, ∃ y, f x = Ok y) xs → ∃ ys, apply_each f xs = Ok ys.
Proof.
  induction 1 as [|x xs [y Hy] _ [ys IH]]; [by eexists|].
  exists (y :: ys). cbn. by rewrite Hy, IH.
Qed.

Lemma remove_links_strings (data : list scalar) :
  Forall (λ x, is_str x = true) data →
  Forall (λ x, is_str x = true) (remove_links data).
Proof.
  unfold remove_links. induction 1 as [|[s| |n] xs Hx _ IH]; cbn;
    [constructor|by constructor|done..].
Qed.

Lemma builders_return (EMOJI_DATA : char → bool) (data : list scalar)
    (test_mode : bool) :
  Forall (λ x, is_str x = true) data →
  (∃ df txs, emoji_transactions EMOJI_DATA data test_mode = Ok txs
             ∧ prepare_emoji_data EMOJI_DATA data test_mode = Ok df)
  ∧ (∃ raw, word_transactions EMOJI_DATA data test_mode = Ok raw).
Proof.
  intros Hstr. split.
  - destruct (apply_each_total (λ x, emoji_only EMOJI_DATA (Scalar x)) data)
      as [ys Hys].
    { eapply Forall_impl; [exact Hstr|]. intros [s| |n] Hx; try done.
      by eexists. }
    unfold prepare_emoji_data, emoji_transactions. rewrite Hys. cbn.
    by eexists _, _.
  - set (links := if test_mode then take 100 (remove_links data)
                  else remove_links data).
    assert (Forall (λ x, is_str x = true) links) as Hlinks.
    { subst links. destruct test_mode;
        [apply Forall_take|]; by apply remove_links_strings. }
    destruct (apply_each_total (λ x, unique_vals EMOJI_DATA (Scalar x)) links)
      as [ys Hys].
    { eapply Forall_impl; [exact Hlinks|]. intros [s| |n] Hx; try done.
      by eexists. }
    unfold word_transactions. fold links.
    rewrite Hys. cbn. by eexists.
Qed.

(** ** The model on sample inputs *)

(** ["a a  b 😀😀❤😀 a😀😀"] becomes ["a b 😀❤ a😀😀"]. *)
Example unique_vals_sample :
  unique_vals sample_emoji
    (Scalar (SStr [ch_a; space; ch_a; space; space; ch_b; space;
                   grin; grin; heart; grin; space; ch_a; grin; grin]))
  = Ok (Scalar (SStr [ch_a; space; ch_b; space; grin; heart; space;
                      ch_a; grin; grin])).
Proof. vm_compute. reflexivity. Qed.

Example emoji_only_sample :
  emoji_only sample_emoji
    (Scalar (SStr [ch_a; grin; space; grin; ch_b; heart]))
  = Ok (Scalar (SStr [grin; grin; heart])).
Proof. vm_compute. reflexivity. Qed.

(** [" a http:/b bhttp "] loses the link and the outer white space; the
    trailing ["http"] is followed by no character of a link and stays. *)
Example remove_links_sample :
  remove_links
    [SStr [space; ch_a; space; 104; 116; 116; 112; 58; 47; ch_b; space;
           ch_b; 104; 116; 116; 112; space]%N; SNum 3]
  = [SStr [ch_a; space; space; ch_b; 104; 116; 116; 112]%N; SNull].
Proof. vm_compute. reflexivity. Qed.

(** A→B, B→A, A→A with the labels 0, 3, 4: the mirror in the middle goes,
    the last row stays. *)
Example remove_duplicates_sample :
  remove_duplicates
    [(0%nat, rule_ab); (3%nat, rule_ba);
     (4%nat, Rule item_a item_a 1%float 1%float 1%float)]
  = Ok [(0%nat, rule_ab);
        (4%nat, Rule item_a item_a 1%float 1%float 1%float)].
Proof. vm_compute. reflexivity. Qed.

Example prepare_emoji_data_sample :
  prepare_emoji_data sample_emoji
    [SStr [ch_b; heart; ch_a; grin; heart]; SStr []] false
  = Ok (OneHot [[heart]; [grin]] [[true; true]; [false; false]]).
Proof. vm_compute. reflexivity. Qed.

(** ** [remove_links] leaves no link behind *)

(** Case analysis of a code point down to the bits of a literal. *)
Ltac pin c :=
  destruct c as [|c]; [done|];
  do 7 (try (destruct c as [c|c|]; try done)).

Lemma starts_link_inv (s : str) :
  starts_link s = true →
  ∃ x rest, s = 104%N :: 116%N :: 116%N :: 112%N :: x :: rest
            ∧ isspace x = false.
Proof.
  destruct s as [|c0 s]; [done|]. pin c0.
  destruct s as [|c1 s]; [done|]. pin c1.
  destruct s as [|c2 s]; [done|]. pin c2.
  destruct s as [|c3 s]; [done|]. pin c3.
  destruct s as [|x rest]; [done|].
  cbn. intros Hx. exists x, rest. split; [done|].
  by destruct (isspace x).
Qed.

Lemma starts_link_app (s rest : str) :
  starts_link s = true → starts_link (s ++ rest) = true.
Proof.
  intros (x & s' & -> & Hx)%starts_link_inv. cbn. by rewrite Hx.
Qed.

Lemma sub_links_skipping_head (s : str) :
  match sub_links true s with
  | [] => True
  | c :: _ => isspace c = true
  end.
Proof.
  induction s as [|c s IH]; [done|].
  cbn [sub_links]. by destruct (isspace c) eqn:Hc.
Qed.

Lemma sub_links_head (s : str) (x : char) (out : str) :
  sub_links false s = x :: out → isspace x = false →
  ∃ s', s = x :: s' ∧ sub_links false s' = out.
Proof.
  destruct s as [|c s]; [done|].
  cbn [sub_links]. destruct (starts_link (c :: s)).
  - intros Hout Hx. pose proof (sub_links_skipping_head s) as Hhead.
    rewrite Hout in Hhead. congruence.
  - intros [= -> <-] _. by exists s.
Qed.

Lemma starts_link_sub_links (c : char) (s : str) :
  starts_link (c :: sub_links false s) = true → starts_link (c :: s) = true.
Proof.
  intros (x & rest & [= -> Hout] & Hx)%starts_link_inv.
  apply sub_links_head in Hout as (s1 & -> & Hout); [|done].
  apply sub_links_head in Hout as (s2 & -> & Hout); [|done].
  apply sub_links_head in Hout as (s3 & -> & Hout); [|done].
  apply sub_links_head in Hout as (s4 & -> & Hout); [|done].
  cbn. by rewrite Hx.
Qed.

Lemma sub_links_no_link (skipping : bool) (s : str) :
  has_link (sub_links skipping s) = false.
Proof.
  revert skipping.
  induction s as [|c s IH]; intros skipping; [by destruct skipping|].
  cbn [sub_links]. destruct skipping.
  - destruct (isspace c) eqn:Hc; [|apply IH].
    cbn [has_link]. rewrite IH, orb_false_r.
    apply not_true_is_false.
    intros (x & rest & [= -> _] & _)%starts_link_inv. done.
  - destruct (starts_link (c :: s)) eqn:Hlink; [apply IH|].
    cbn [has_link]. rewrite IH, orb_false_r.
    apply not_true_is_false. intros Hout%starts_link_sub_links. congruence.
Qed.

Lemma sub_links_link_free (s : str) :
  has_link s = false → sub_links false s = s.
Proof.
  induction s as [|c s IH]; [done|].
  cbn [has_link sub_links]. intros [Hc Hs]%orb_false_iff.
  by rewrite Hc, IH.
Qed.

Lemma has_link_app (s rest : str) :
  has_link (s ++ rest) = false → has_link s = false.
Proof.
  induction s as [|c s IH]; [done|].
  cbn [app has_link]. intros [Hc Hs]%orb_false_iff.
  rewrite IH, orb_false_r by done.
  apply not_true_is_false. intros Hlink.
  apply (starts_link_app _ rest) in Hlink. cbn [app] in Hlink. congruence.
Qed.

Lemma lstrip_suffix (s : str) : ∃ sp, s = sp ++ lstrip s.
Proof.
  induction s as [|c s [sp IH]]; [by exists []|].
  cbn [lstrip]. destruct (isspace c); [|by exists []].
  exists (c :: sp). cbn. by f_equal.
Qed.

Lemma lstrip_no_link (s : str) :
  has_link s = false → has_link (lstrip s) = false.
Proof.
  induction s as [|c s IH]; [done|].
  cbn [lstrip]. destruct (isspace c); [|done].
  cbn [has_link]. intros [_ Hs]%orb_false_iff. by apply IH.
Qed.

Lemma lstrip_head (s : str) :
  match lstrip s with [] => True | c :: _ => isspace c = false end.
Proof.
  induction s as [|c s IH]; [done|].
  cbn [lstrip]. by destruct (isspace c) eqn:Hc.
Qed.

Lemma lstrip_fixed (s : str) :
  match s with [] => True | c :: _ => isspace c = false end → lstrip s = s.
Proof. destruct s as [|c s]; [done|]. cbn. by intros ->. Qed.

(** The part of [strip] that trims the right end returns a prefix. *)
Lemma rstrip_prefix (s : str) : ∃ sp, s = reverse (lstrip (reverse s)) ++ sp.
Proof.
  destruct (lstrip_suffix (reverse s)) as [sp Hsp].
  exists (reverse sp).
  rewrite <- reverse_app, <- Hsp. by rewrite reverse_involutive.
Qed.

Lemma strip_no_link (s : str) : has_link s = false → has_link (strip s) = false.
Proof.
  intros Hs%lstrip_no_link. unfold strip.
  destruct (rstrip_prefix (lstrip s)) as [sp Hsp].
  rewrite Hsp in Hs. by apply has_link_app in Hs.
Qed.

Lemma strip_idemp (s : str) : strip (strip s) = strip s.
Proof.
  unfold strip at 1.
  assert (lstrip (strip s) = strip s) as ->.
  { apply lstrip_fixed. unfold strip.
    destruct (rstrip_prefix (lstrip s)) as [sp Hsp].
    pose proof (lstrip_head s) as Hhead. rewrite Hsp in Hhead.
    by destruct (reverse (lstrip (reverse (lstrip s)))). }
  unfold strip. rewrite reverse_involutive.
  f_equal. apply lstrip_fixed, lstrip_head.
Qed.

(** X1. A cell that [remove_links] returns is a null or a string in which
    no link is left ([http] followed by a character that is not white
    space occurs nowhere) and which has no white space at either end. *)
Theorem remove_links_clean (content : list scalar) (cell : scalar) :
  cell ∈ remove_links content →
  cell = SNull
  ∨ ∃ t, cell = SStr t ∧ has_link t = false ∧ strip t = t.
Proof.
  unfold remove_links. intros (x & <- & _)%list_elem_of_In%in_map_iff.
  destruct x as [s| |n]; [right|by left..].
  eexists. split; [done|]. split.
  - apply strip_no_link, sub_links_no_link.
  - apply strip_idemp.
Qed.

(** X2. [remove_links] is idempotent: cleaning a cleaned column changes
    nothing. *)
Theorem remove_links_idempotent (content : list scalar) :
  remove_links (remove_links content) = remove_links content.
Proof.
  unfold remove_links. rewrite map_map. apply map_ext.
  intros [s| |n]; [|done..].
  rewrite sub_links_link_free by apply strip_no_link, sub_links_no_link.
  by rewrite strip_idemp.
Qed.

(** ** The builders in closed form *)

Lemma apply_each_fmap {A B C} (f : B → result C) (h : A → B) (xs : list A) :
  apply_each f (map h xs) = apply_each (λ x, f (h x)) xs.
Proof. induction xs as [|x xs IH]; cbn; [done|]. by rewrite IH. Qed.

Lemma apply_each_cells {B} (f : scalar → result B) (g : str → B)
    (data : list scalar) :
  (∀ s, f (SStr s) = Ok (g s)) →
  (∀ x, is_str x = false → f x = Raise AttributeError) →
  apply_each f data
  = if forallb is_str data then Ok (g <$> texts data)
    else Raise AttributeError.
Proof.
  intros Hstr Hother. induction data as [|x data IH]; [done|].
  cbn [apply_each forallb]. destruct x as [s| |n].
  - rewrite Hstr, IH. cbn. by destruct (forallb is_str data).
  - by rewrite Hother.
  - by rewrite Hother.
Qed.

Lemma texts_take (n : nat) (data : list scalar) :
  forallb is_str data = true → texts (take n data) = take n (texts data).
Proof.
  revert n. induction data as [|x data IH]; intros [|n] Hall; try done.
  cbn in Hall. apply andb_true_iff in Hall as [Hx Hall].
  destruct x; try done. cbn. f_equal. by apply IH.
Qed.

Lemma forallb_take (n : nat) (data : list scalar) :
  forallb is_str data = true → forallb is_str (take n data) = true.
Proof.
  revert n. induction data as [|x data IH]; intros [|n] Hall; try done.
  cbn in *. apply andb_true_iff in Hall as [-> Hall]. by apply IH.
Qed.

Lemma texts_length (data : list scalar) :
  forallb is_str data = true → length (texts data) = length data.
Proof.
  induction data as [|[s| |n] data IH]; cbn; try done.
  intros Hall. f_equal. by apply IH.
Qed.

Lemma elem_of_texts (data : list scalar) (s : str) :
  s ∈ texts data ↔ SStr s ∈ data.
Proof.
  unfold texts. rewrite list_elem_of_omap. split.
  - intros ([t| |n] & Hin & [= <-]). done.
  - intros Hin. by exists (SStr s).
Qed.

Section ClosedForms.

Variable EMOJI_DATA : char → bool.

Lemma emoji_transactions_eq (data : list scalar) (test_mode : bool) :
  emoji_transactions EMOJI_DATA data test_mode
  = if forallb is_str data
    then Ok ((λ s, list_set (emoji_chars EMOJI_DATA s))
               <$> texts (posts data test_mode))
    else Raise AttributeError.
Proof.
  unfold emoji_transactions.
  rewrite (apply_each_cells _ (λ s, Scalar (SStr (emoji_chars EMOJI_DATA s))));
    [|done|by intros [s| |n]].
  destruct (forallb is_str data) eqn:Hall; [|done].
  cbn. f_equal. unfold posts. destruct test_mode.
  - rewrite texts_take by done.
    change (map ?f ?l) with (f <$> l).
    by rewrite <- fmap_take, <- list_fmap_compose.
  - change (map ?f ?l) with (f <$> l). by rewrite <- list_fmap_compose.
Qed.

Lemma word_transactions_eq (data : list scalar) (test_mode : bool) :
  word_transactions EMOJI_DATA data test_mode
  = if forallb is_str (posts data test_mode)
    then Ok ((λ s, unique_words EMOJI_DATA (strip (sub_links false s)))
               <$> texts (posts data test_mode))
    else Raise AttributeError.
Proof.
  unfold word_transactions.
  assert ((if test_mode then take 100 (remove_links data)
           else remove_links data)
          = remove_links (posts data test_mode)) as ->.
  { unfold posts, remove_links. destruct test_mode; [|done].
    change (map ?f ?l) with (f <$> l). by rewrite fmap_take. }
  unfold remove_links. rewrite apply_each_fmap.
  rewrite (apply_each_cells _
             (λ s, Scalar (SStr (process_text EMOJI_DATA
                                   (SStr (strip (sub_links false s)))))));
    [|done|by intros [s| |n]].
  destruct (forallb is_str (posts data test_mode)); [|done].
  cbn. f_equal. change (map ?f ?l) with (f <$> l).
  rewrite <- list_fmap_compose. apply list_fmap_ext. intros _ s _. cbn.
  apply split_process_text.
Qed.

End ClosedForms.

Lemma forallb_is_str_false (data : list scalar) :
  forallb is_str data = false ↔ ∃ x, x ∈ data ∧ is_str x = false.
Proof.
  induction data as [|x data IH]; cbn.
  - split; [done|]. by intros (x & ?%elem_of_nil & _).
  - rewrite andb_false_iff, IH. split.
    + intros [Hx|(y & Hy & Hstr)]; [exists x|exists y]; split; try done;
        [by left|by right].
    + intros (y & [->|Hy]%elem_of_cons & Hstr); [by left|].
      right. by exists y.
Qed.

Lemma forallb_is_str_true (data : list scalar) :
  forallb is_str data = true ↔ ∀ x, x ∈ data → is_str x = true.
Proof.
  split.
  - intros Hall x Hx. destruct (is_str x) eqn:Hstr; [done|].
    assert (forallb is_str data = false) as Hf
      by (apply forallb_is_str_false; by exists x).
    congruence.
  - intros Hall. destruct (forallb is_str data) eqn:Hf; [done|].
    apply forallb_is_str_false in Hf as (x & Hx & Hstr).
    rewrite (Hall x Hx) in Hstr. done.
Qed.

Lemma elem_of_list_set (x : str) (item : str) :
  item ∈ list_set x ↔ ∃ c, item = [c] ∧ c ∈ x.
Proof.
  unfold list_set. rewrite list_elem_of_fmap.
  split; intros (c & -> & Hc); exists c; (split; [done|]);
    by apply elem_of_elements, elem_of_list_to_set in Hc
    || by apply elem_of_elements, elem_of_list_to_set.
Qed.

Section BuilderBehaviour.

Context {num : Type} {F : Arith num}.
Variable EMOJI_DATA : char → bool.
Variable data : list scalar.
Variable test_mode : bool.
Variable min_support : num.

(** X3. The emoji builder raises exactly when some cell of the column is
    not a string, wherever the cell is (in test mode too, since the
    normaliser runs over the whole column before the first hundred rows
    are taken), and what it raises is [AttributeError]. *)
Theorem emoji_builder_raises :
  (prepare_emoji_data EMOJI_DATA data test_mode = Raise AttributeError ↔
     ∃ x, x ∈ data ∧ is_str x = false)
  ∧ ∀ e, prepare_emoji_data EMOJI_DATA data test_mode = Raise e →
         e = AttributeError.
Proof.
  unfold prepare_emoji_data. rewrite emoji_transactions_eq.
  rewrite <- forallb_is_str_false.
  destruct (forallb is_str data); cbn; split; try done.
  by intros e [= <-].
Qed.

(** The word builder on posts that are all strings: the transactions are
    read, pruned and binarized. *)
Lemma word_builder_on_strings :
  forallb is_str (posts data test_mode) = true →
  ∃ raw : list (list str),
    word_transactions EMOJI_DATA data test_mode = Ok raw
    ∧ length raw = length (posts data test_mode)
    ∧ prepare_emoji_word_data EMOJI_DATA data test_mode min_support
      = (filtered ← filter_transactions raw min_support;
         Ok (binarize filtered)).
Proof.
  intros Hall. unfold prepare_emoji_word_data.
  rewrite word_transactions_eq, Hall. eexists. split; [done|].
  split; [|done]. rewrite length_fmap. by apply texts_length.
Qed.

(** The word builder raises in two cases only: on a cell that is not a
    string, and when [int(min_support * number of posts)] raises. *)
Lemma word_builder_Raise (e : exn) :
  prepare_emoji_word_data EMOJI_DATA data test_mode min_support = Raise e ↔
  (e = AttributeError ∧ ∃ x, x ∈ posts data test_mode ∧ is_str x = false)
  ∨ ((∀ x, x ∈ posts data test_mode → is_str x = true)
     ∧ min_count_of min_support (length (posts data test_mode)) = Raise e).
Proof.
  rewrite <- forallb_is_str_false, <- forallb_is_str_true.
  destruct (forallb is_str (posts data test_mode)) eqn:Hall.
  - destruct (word_builder_on_strings Hall) as (raw & _ & Hlen & ->).
    rewrite <- Hlen, <- filter_transactions_Raise.
    destruct (filter_transactions raw min_support) as [e'|filtered];
      unfold Raise, Ok; cbn; split.
    + intros [= ->]. by right.
    + by intros [[_ [=]]|[_ [= ->]]].
    + intros [=].
    + by intros [[_ [=]]|[_ [=]]].
  - unfold prepare_emoji_word_data. rewrite word_transactions_eq, Hall.
    unfold Raise, Ok; cbn. split.
    + intros [= <-]. by left.
    + by intros [[-> _]|[[=] _]].
Qed.

(** X5. The frame a builder returns has one row per post read: as many
    rows as the column has cells, or a hundred at most in test mode. *)
Theorem builder_row_count (df : onehot_frame) :
  prepare_emoji_data EMOJI_DATA data test_mode = Ok df
  ∨ prepare_emoji_word_data EMOJI_DATA data test_mode min_support = Ok df →
  length (rows df)
  = if test_mode then Nat.min 100 (length data) else length data.
Proof.
  assert (length (posts data test_mode)
          = if test_mode then Nat.min 100 (length data) else length data) as <-.
  { unfold posts. destruct test_mode; [|done]. by rewrite length_take. }
  unfold prepare_emoji_data, prepare_emoji_word_data.
  rewrite emoji_transactions_eq, word_transactions_eq.
  intros [Hdf|Hdf].
  - destruct (forallb is_str data) eqn:Hall; [|done].
    cbn in Hdf. injection Hdf as <-.
    rewrite binarize_rows. unfold presence.
    rewrite length_map, length_fmap. apply texts_length.
    unfold posts. destruct test_mode; [by apply forallb_take|done].
  - destruct (forallb is_str (posts data test_mode)) eqn:Hall; [|done].
    cbn in Hdf.
    destruct (filter_transactions _ min_support) as [e|filtered] eqn:Hf;
      [done|].
    cbn in Hdf. injection Hdf as <-.
    apply filter_transactions_length in Hf.
    rewrite binarize_rows. unfold presence.
    rewrite length_map, Hf, length_fmap. by apply texts_length.
Qed.

(** X6. The columns of the emoji builder's frame are exactly the emoji of
    the posts read, each as a one-character item: an item is a column if
    and only if it is a single character of the emoji table that occurs
    in one of the posts. *)
Theorem emoji_columns (df : onehot_frame) (item : str) :
  prepare_emoji_data EMOJI_DATA data test_mode = Ok df →
  item ∈ columns df ↔
  ∃ c s, item = [c] ∧ EMOJI_DATA c = true
         ∧ SStr s ∈ posts data test_mode ∧ c ∈ s.
Proof.
  unfold prepare_emoji_data. rewrite emoji_transactions_eq.
  destruct (forallb is_str data); [|done].
  cbn. intros [= <-]. cbn. rewrite elem_of_classes. split.
  - intros (txn & (s & -> & Hs)%list_elem_of_fmap & Hitem).
    apply elem_of_list_set in Hitem as (c & -> & Hc).
    apply list_elem_of_filter in Hc as [Hemoji Hc].
    exists c, s. split; [done|]. split; [by apply Is_true_true|].
    split; [by apply elem_of_texts|done].
  - intros (c & s & -> & Hemoji & Hs & Hc).
    exists (list_set (emoji_chars EMOJI_DATA s)). split.
    + apply list_elem_of_fmap. exists s. split; [done|].
      by apply elem_of_texts.
    + apply elem_of_list_set. exists c. split; [done|].
      apply list_elem_of_filter. split; [by apply Is_true_true|done].
Qed.

End BuilderBehaviour.

Lemma float_to_int_Raise (x : float) (e : exn) :
  float_to_int x = Raise e → e = ValueError ∨ e = OverflowError.
Proof.
  unfold float_to_int.
  destruct (Prim2SF x) as [s|s| |s m ex]; intros [=]; auto.
Qed.

(** X4. The word builder raises [AttributeError] exactly when some cell
    among the posts it reads (the first hundred in test mode) is not a
    string.  It raises in one other case only: when all those cells are
    strings and [int(min_support * number of posts)] raises (a product that
    is not a number, or not finite); it then raises that exception. *)
Theorem word_builder_raises (EMOJI_DATA : char → bool) (data : list scalar)
    (test_mode : bool) (min_support : float) :
  (prepare_emoji_word_data EMOJI_DATA data test_mode min_support
   = Raise AttributeError ↔
     ∃ x, x ∈ posts data test_mode ∧ is_str x = false)
  ∧ ∀ e : exn,
      prepare_emoji_word_data EMOJI_DATA data test_mode min_support
      = Raise e ↔
      (e = AttributeError
       ∧ ∃ x, x ∈ posts data test_mode ∧ is_str x = false)
      ∨ ((∀ x, x ∈ posts data test_mode → is_str x = true)
         ∧ float_to_int
             (min_support
              * float_of_int (Z.of_nat (length (posts data test_mode))))%float
           = Raise e).
Proof.
  split;
    [|intros e;
      exact (word_builder_Raise EMOJI_DATA data test_mode min_support e)].
  rewrite word_builder_Raise. split; [|intros Hx; by left].
  intros [[_ Hx]|[_ Hint]]; [done|].
  rewrite min_count_binary64 in Hint.
  by apply float_to_int_Raise in Hint as [?|?].
Qed.

(** With a [min_support] that is not a number the word builder raises
    [ValueError], on posts that are all strings. *)
Example word_builder_nan_support :
  prepare_emoji_word_data sample_emoji sample_data false nan
  = Raise ValueError.
Proof. vm_compute. reflexivity. Qed.

(** ** Counting and pruning, continued *)

Lemma occ_cons (item x : str) (l : list str) :
  occ item (x :: l) = (if decide (x = item) then 1 else 0) + occ item l.
Proof.
  unfold occ. rewrite filter_cons.
  destruct (decide (x = item)); cbn [length]; lia.
Qed.

Lemma occ_app (item : str) (l1 l2 : list str) :
  occ item (l1 ++ l2) = occ item l1 + occ item l2.
Proof. unfold occ. rewrite filter_app, length_app. lia. Qed.

Lemma occ_not_elem_of (item : str) (l : list str) : item ∉ l → occ item l = 0.
Proof.
  induction l as [|x l IH]; [done|].
  rewrite not_elem_of_cons, occ_cons. intros [Hne Hl].
  rewrite IH by done. by destruct (decide (x = item)).
Qed.

Lemma occ_NoDup (item : str) (l : list str) :
  NoDup l → occ item l = if decide (item ∈ l) then 1 else 0.
Proof.
  induction 1 as [|x l Hx Hl IH]; [done|].
  rewrite occ_cons. destruct (decide (x = item)) as [->|Hne].
  - rewrite occ_not_elem_of by done.
    rewrite decide_True by (by left). done.
  - rewrite IH. destruct (decide (item ∈ l)).
    + by rewrite decide_True by (by right).
    + rewrite decide_False; [done|]. by intros [?|?]%elem_of_cons.
Qed.

Lemma occurrences_doc_freq (item : str) (transactions : list (list str)) :
  Forall (NoDup (A:=str)) transactions →
  occurrences item transactions = doc_freq item transactions.
Proof.
  unfold occurrences, doc_freq.
  induction 1 as [|txn txns Htxn _ IH]; [done|].
  cbn [concat]. rewrite occ_app, IH, occ_NoDup, filter_cons by done.
  destruct (decide (item ∈ txn)); cbn [length]; lia.
Qed.

Lemma doc_freq_le (item : str) (transactions : list (list str)) :
  doc_freq item transactions ≤ Z.of_nat (length transactions).
Proof. unfold doc_freq. pose proof (length_filter (λ txn, item ∈ txn) transactions). lia. Qed.

Lemma elem_of_pruned (transactions : list (list str)) (min_count : Z)
    (item : str) :
  item ∈ concat (map (filter (λ item, min_count
                                       ≤ occurrences item transactions))
                     transactions) ↔
  item ∈ concat transactions ∧ min_count ≤ occurrences item transactions.
Proof.
  rewrite (elem_of_concat item (map _ _)). split.
  - intros (txn' & (txn & <- & Htxn)%list_elem_of_In%in_map_iff & Hitem).
    apply list_elem_of_filter in Hitem as [Hfreq Hitem].
    split; [|done]. apply elem_of_concat. exists txn.
    split; [by apply list_elem_of_In|done].
  - intros [Hin Hcount].
    pose proof Hin as (txn & Htxn & Hitem)%elem_of_concat.
    eexists. split.
    + apply list_elem_of_In, in_map_iff. exists txn.
      split; [done|]. by apply list_elem_of_In.
    + by apply list_elem_of_filter.
Qed.

Lemma filter_all {A} (P : A → Prop) `{∀ x, Decision (P x)} (l : list A) :
  (∀ x, x ∈ l → P x) → filter P l = l.
Proof.
  induction l as [|a l IH]; intros HP; [done|].
  rewrite filter_cons_True by (apply HP; by left).
  f_equal. apply IH. intros x Hx. apply HP. by right.
Qed.

Lemma filter_none {A} (P : A → Prop) `{∀ x, Decision (P x)} (l : list A) :
  (∀ x, x ∈ l → ¬ P x) → filter P l = [].
Proof.
  induction l as [|a l IH]; intros HP; [done|].
  rewrite filter_cons_False by (apply HP; by left).
  apply IH. intros x Hx. apply HP. by right.
Qed.

Lemma occ_concat_filter (P : str → Prop) `{∀ x, Decision (P x)}
    (item : str) (transactions : list (list str)) :
  P item →
  occ item (concat (map (filter P) transactions))
  = occ item (concat transactions).
Proof.
  intros HP. induction transactions as [|txn txns IH]; [done|].
  cbn [map concat]. rewrite !occ_app, IH. f_equal.
  induction txn as [|x txn IHt]; [done|].
  rewrite filter_cons. destruct (decide (P x)) as [Hx|Hx].
  - by rewrite !occ_cons, IHt.
  - rewrite occ_cons, IHt. rewrite decide_False; [done|]. by intros ->.
Qed.

(** Pruning at a threshold, twice. *)
Lemma pruned_twice (transactions : list (list str)) (min_count : Z) :
  let filtered :=
    map (filter (λ item, min_count ≤ occurrences item transactions))
        transactions in
  map (filter (λ item, min_count ≤ occurrences item filtered)) filtered
  = filtered.
Proof.
  intros filtered.
  transitivity (map id filtered); [|apply map_id].
  apply map_ext_in. intros txn' Htxn'%list_elem_of_In.
  apply filter_all. intros item Hitem.
  assert (item ∈ concat filtered) as Hin
    by (apply elem_of_concat; by exists txn').
  apply elem_of_pruned in Hin as [Hin Hcount].
  assert (occurrences item filtered = occurrences item transactions) as ->;
    [|done].
  unfold occurrences, filtered.
  by apply (occ_concat_filter
              (λ item0, min_count ≤ occurrences item0 transactions)).
Qed.

Section PruningBehaviour.

Context {num : Type} {F : Arith num}.

(** X8. When [min_count], the [int()] of [min_support] times the number
    of transactions, is at most 1, the pruning removes nothing. *)
Theorem pruning_keeps_all (transactions : list (list str))
    (min_support : num) (min_count : Z) :
  min_count_of min_support (length transactions) = Ok min_count →
  min_count ≤ 1 →
  filter_transactions transactions min_support = Ok transactions.
Proof.
  intros Hcount Hle. apply filter_transactions_Ok.
  exists min_count. split; [done|]. symmetry.
  transitivity (map id transactions); [|apply map_id].
  apply map_ext_in. intros txn Htxn%list_elem_of_In.
  apply filter_all. intros item Hitem.
  assert (item ∈ concat transactions) as Hin
    by (apply elem_of_concat; by exists txn).
  apply occ_pos in Hin. unfold occurrences. lia.
Qed.

(** X10. Pruning is idempotent: the items that survive keep all their
    occurrences, so pruning the filtered transactions again with the same
    [min_support] changes nothing. *)
Theorem pruning_idempotent (transactions : list (list str))
    (min_support : num) :
  (filtered ← filter_transactions transactions min_support;
   filter_transactions filtered min_support)
  = filter_transactions transactions min_support.
Proof.
  destruct (filter_transactions transactions min_support)
    as [e|filtered] eqn:Hfiltered; [done|].
  cbn. apply filter_transactions_Ok.
  pose proof (filter_transactions_length _ _ _ Hfiltered) as Hlen.
  apply filter_transactions_Ok in Hfiltered as (min_count & Hcount & ->).
  exists min_count. rewrite Hlen. split; [done|].
  symmetry. apply pruned_twice.
Qed.

End PruningBehaviour.

Lemma concat_all_nil {A B} (l : list B) :
  concat (map (λ _, @nil A) l) = [].
Proof. induction l as [|x l IH]; [done|]. done. Qed.

Lemma map_nil_replicate {A B} (l : list B) :
  map (λ _, @nil A) l = replicate (length l) [].
Proof. induction l as [|x l IH]; [done|]. cbn. by rewrite IH. Qed.

Lemma binarize_all_empty {B} (l : list B) :
  binarize (map (λ _, []) l) = OneHot [] (replicate (length l) []).
Proof.
  unfold binarize, classes_, fit_transform, astype_bool, classes_.
  rewrite concat_all_nil. cbn. f_equal.
  rewrite !map_map. cbn. apply map_nil_replicate.
Qed.

Section WordBuilder.

Context {num : Type} {F : Arith num}.
Variable EMOJI_DATA : char → bool.
Variable data : list scalar.
Variable test_mode : bool.
Variable min_support : num.

Lemma word_transactions_shape (raw : list (list str)) :
  word_transactions EMOJI_DATA data test_mode = Ok raw →
  Forall (λ txn, NoDup txn ∧ Forall proper_word txn) raw.
Proof.
  rewrite word_transactions_eq.
  destruct (forallb is_str (posts data test_mode)); [|done].
  intros [= <-]. apply Forall_fmap, Forall_forall. intros s _. cbn. split.
  - apply NoDup_fromkeys.
  - apply unique_words_proper.
Qed.

(** The word builder, when it returns: the transactions read, the
    threshold and the frame. *)
Lemma word_builder_Ok (df : onehot_frame) :
  prepare_emoji_word_data EMOJI_DATA data test_mode min_support = Ok df ↔
  ∃ (raw : list (list str)) (min_count : Z),
    word_transactions EMOJI_DATA data test_mode = Ok raw
    ∧ min_count_of min_support (length raw) = Ok min_count
    ∧ df = binarize
             (map (filter (λ item, min_count ≤ occurrences item raw)) raw).
Proof.
  unfold prepare_emoji_word_data.
  destruct (word_transactions EMOJI_DATA data test_mode) as [e|raw];
    cbn.
  { split; [done|]. by intros (raw & k & [=] & _). }
  rewrite filter_transactions_occurrences.
  destruct (min_count_of min_support (length raw)) as [e|k] eqn:Hk; cbn.
  { split; [done|]. intros (raw' & k & [= <-] & Hk' & _).
    unfold Ok in Hk'. congruence. }
  split.
  - intros [= <-]. by exists raw, k.
  - intros (raw' & k' & [= <-] & Hk' & ->).
    rewrite Hk in Hk'. by injection Hk' as <-.
Qed.

(** X7. In the word builder every transaction is free of repeated items
    and made of non-empty tokens without white space; an item is a column
    of the frame if and only if it occurs in some post and the number of
    posts it occurs in is at least [min_count], the
    [int(min_support * number of posts)] of the arithmetic. *)
Theorem word_columns (df : onehot_frame) :
  prepare_emoji_word_data EMOJI_DATA data test_mode min_support = Ok df →
  ∃ (raw : list (list str)) (min_count : Z),
    word_transactions EMOJI_DATA data test_mode = Ok raw
    ∧ Forall (λ txn, NoDup txn ∧ Forall proper_word txn) raw
    ∧ min_count_of min_support (length raw) = Ok min_count
    ∧ ∀ item : str,
        item ∈ columns df ↔
        item ∈ concat raw ∧ min_count ≤ doc_freq item raw.
Proof.
  intros (raw & min_count & Hraw & Hcount & ->)%word_builder_Ok.
  exists raw, min_count. split; [done|].
  pose proof (word_transactions_shape raw Hraw) as Hshape.
  split; [done|]. split; [done|]. intros item. cbn.
  rewrite <- (occurrences_doc_freq item raw)
    by (eapply Forall_impl; [exact Hshape|]; by intros txn [? _]).
  rewrite <- elem_of_pruned.
  unfold classes_. rewrite merge_sort_Permutation.
  apply elem_of_fromkeys.
Qed.

(** X9. When [min_count], the [int()] of [min_support] times the number
    of posts, exceeds the number of posts, no item is frequent enough: the
    word builder returns a frame without columns that still has one
    (empty) row per post. *)
Theorem word_builder_prunes_everything (raw : list (list str))
    (min_count : Z) :
  word_transactions EMOJI_DATA data test_mode = Ok raw →
  min_count_of min_support (length raw) = Ok min_count →
  Z.of_nat (length raw) < min_count →
  prepare_emoji_word_data EMOJI_DATA data test_mode min_support
  = Ok (OneHot [] (replicate (length raw) [])).
Proof.
  intros Hraw Hcount Hms. apply word_builder_Ok.
  exists raw, min_count. split; [done|]. split; [done|].
  rewrite <- binarize_all_empty. f_equal.
  pose proof (word_transactions_shape raw Hraw) as Hshape.
  symmetry. apply map_ext_in. intros txn Htxn%list_elem_of_In.
  apply filter_none. intros item Hitem Hfreq.
  rewrite occurrences_doc_freq in Hfreq
    by (eapply Forall_impl; [exact Hshape|]; by intros ? [? _]).
  pose proof (doc_freq_le item raw). lia.
Qed.

End WordBuilder.

(** ** The lift filter and the deduplication pass, continued *)






Section DedupSelection.

Context {num : Type}.

Lemma dedup_adjacent_sublist (prev : option (rule num))
    (rules : rule_frame num) :
  dedup_adjacent prev rules `sublist_of` rules.
Proof.
  revert prev. induction rules as [|row rest IH]; intros prev; [done|].
  cbn. destruct (mirrors_opt row.2 prev).
  - by apply sublist_cons.
  - by apply sublist_skip.
Qed.

Lemma dedup_adjacent_head (rules : rule_frame num) :
  head (dedup_adjacent None rules) = head rules.
Proof. by destruct rules. Qed.

(** X13. On a frame with at least one row and distinct labels the
    deduplication pass returns a selection of the rows in their original
    order, and it always keeps the first row: it never empties a frame. *)
Theorem dedup_keeps_first_row (rules : rule_frame num) :
  rules ≠ [] →
  NoDup rules.*1 →
  ∃ out : rule_frame num,
    remove_duplicates rules = Ok out
    ∧ out `sublist_of` rules
    ∧ head out = head rules
    ∧ out ≠ [].
Proof.
  intros Hne Hnd. exists (dedup_adjacent None rules).
  split; [by apply remove_duplicates_adjacent|].
  split; [apply dedup_adjacent_sublist|].
  split; [apply dedup_adjacent_head|].
  destruct rules as [|row rest]; [done|]. cbn. done.
Qed.

Lemma dedup_retained_no_mirror (last : option (rule num))
    (rules : rule_frame num) :
  (∀ r, head (dedup_retained last rules) = Some r →
        mirrors_opt r.2 last = false)
  ∧ ∀ i p r, dedup_retained last rules !! i = Some p →
             dedup_retained last rules !! S i = Some r →
             mirror r.2 p.2 = false.
Proof.
  revert last. induction rules as [|row rest IH]; intros last; [done|].
  cbn [dedup_retained]. destruct (mirrors_opt row.2 last) eqn:Hm; [apply IH|].
  destruct (IH (Some row.2)) as [IHhead IHadj]. split.
  - by intros r [= <-].
  - intros [|i] p r Hp Hr.
    + injection Hp as <-. apply (IHhead r).
      rewrite head_lookup. exact Hr.
    + eapply IHadj; [exact Hp|exact Hr].
Qed.

(** X15. When no (antecedents, consequents) pair occurs twice in the
    frame, no rule of the result is the mirror of the rule just before it
    in the result. *)
Theorem dedup_leaves_no_adjacent_mirror (rules : rule_frame num) :
  NoDup rules.*1 → NoDup (sides ∘ snd <$> rules) →
  ∃ out : rule_frame num,
    remove_duplicates rules = Ok out
    ∧ ∀ i p r, out !! i = Some p → out !! S i = Some r →
               mirror r.2 p.2 = false.
Proof.
  intros Hl Hs. exists (dedup_retained None rules). split.
  - rewrite remove_duplicates_adjacent by done. f_equal.
    apply dedup_adjacent_retained; [done| | |by left]; done.
  - apply dedup_retained_no_mirror.
Qed.

End DedupSelection.

(** ** What the analyzer returns *)

Section AnalyzerResults.

Context {num : Type} {F : Arith num}.
Variable fpgrowth : onehot_frame → num → result (list (itemset_row num)).
Variable association_rules :
  list (itemset_row num) → nat → num → result (list (rule num)).
Variable onehot : onehot_frame.
Variables support confidence lift_distance : num.
Variable find_negative_correlations : bool.

(** X14. When the analyzer returns, its itemsets are the miner's output
    untouched; every rule it returns passes the test of the lift filter,
    with the bounds [1 + lift_distance] and [1 - lift_distance] as the
    floating-point arithmetic gives them; and either there was no frequent
    itemset (no rules, only the mining call made) or the rule generator
    returned at least one row for these itemsets and the rules are a
    selection of its rows, in generation order, beginning with the first
    row that passes the lift filter. *)
Theorem analyzer_result (log : list (event num)) (res : mba_result num) :
  market_basket_analyzer fpgrowth association_rules onehot support
    confidence lift_distance find_negative_correlations []
  = (log, Ok res) →
  fpgrowth onehot support = Ok (itemsets res)
  ∧ (∀ row, row ∈ rules res →
       fle (fadd (of_int 1) lift_distance) (lift row.2) = true
       ∨ (find_negative_correlations = true
          ∧ fle (lift row.2) (fsub (of_int 1) lift_distance) = true))
  ∧ ((itemsets res = [] ∧ rules res = [] ∧ log = [Mining support])
     ∨ ∃ rs,
         itemsets res ≠ []
         ∧ rs ≠ []
         ∧ association_rules (itemsets res) (length (itemsets res))
             confidence = Ok rs
         ∧ log = [Mining support;
                  RuleGeneration (length (itemsets res)) confidence]
         ∧ rules res `sublist_of` range_index rs
         ∧ head (rules res)
           = head (lift_filter lift_distance find_negative_correlations
                     (range_index rs))).
Proof.
  rewrite analyzer_run.
  destruct (fpgrowth onehot support) as [e|[|r fi]] eqn:Hfp; [done| |].
  - intros [= <- <-]. cbn. split; [done|]. split; [|by left].
    by intros row ?%elem_of_nil.
  - destruct (association_rules _ _ confidence) as [e|[|r0 rs]] eqn:Har;
      [done..|].
    intros [= <- <-]. cbn [itemsets rules]. split; [done|]. split.
    + intros row Hrow.
      apply (sublist_subseteq _ _ (dedup_adjacent_sublist None _)) in Hrow.
      rewrite lift_filter_filter in Hrow.
      apply elem_of_List_filter in Hrow as [_ Hmask].
      unfold lift_mask in Hmask. destruct find_negative_correlations.
      * apply orb_true_iff in Hmask as [?|?]; [by left|by right].
      * by left.
    + right. exists (r0 :: rs). split; [done|]. split; [done|].
      split; [done|]. split; [done|].
      split; [|apply dedup_adjacent_head].
      etrans; [apply dedup_adjacent_sublist|apply boolean_index_sublist].
Qed.

(** X16. An error of the miner or of the rule generator escapes the
    analyzer unchanged.  After a failed mining call nothing else is
    called: the log holds the mining call alone.  A failure of the rule
    generator ends the run with that error, after the two calls. *)
Theorem library_errors_propagate (e : exn) :
  (fpgrowth onehot support = Raise e →
   market_basket_analyzer fpgrowth association_rules onehot support
     confidence lift_distance find_negative_correlations []
   = ([Mining support], Raise e))
  ∧ ∀ fi : list (itemset_row num),
      fi ≠ [] →
      fpgrowth onehot support = Ok fi →
      association_rules fi (length fi) confidence = Raise e →
      market_basket_analyzer fpgrowth association_rules onehot support
        confidence lift_distance find_negative_correlations []
      = ([Mining support; RuleGeneration (length fi) confidence], Raise e).
Proof.
  split.
  - intros Hfp. by rewrite analyzer_run, Hfp.
  - intros fi Hne Hfp Har. rewrite analyzer_run, Hfp.
    destruct fi as [|r fi]; [done|]. unfold Ok, Raise in *.
    cbv beta iota. by rewrite Har.
Qed.

End AnalyzerResults.

(** ** [unique_vals] never lengthens a text *)

Lemma weight_cons (w : str) (words : list str) :
  weight (w :: words) = (length w + 1 + weight words)%nat.
Proof. done. Qed.

Lemma join_length (words : list str) :
  words ≠ [] → (length (join words) + 1)%nat = weight words.
Proof.
  induction words as [|w [|w' rest] IH]; [done|cbn; lia|].
  intros _.
  change (join (w :: w' :: rest)) with (w ++ space :: join (w' :: rest)).
  rewrite length_app, weight_cons. cbn [length].
  specialize (IH ltac:(done)). lia.
Qed.

Lemma weight_app (l1 l2 : list str) :
  weight (l1 ++ l2) = (weight l1 + weight l2)%nat.
Proof.
  induction l1 as [|w l1 IH]; [done|].
  cbn [app]. rewrite !weight_cons. lia.
Qed.

Lemma weight_flush (cur : str) : (weight (flush cur) ≤ length cur + 1)%nat.
Proof. destruct cur; cbn; lia. Qed.

Lemma weight_split_from (cur s : str) :
  (weight (split_from cur s) ≤ length cur + length s + 1)%nat.
Proof.
  revert cur. induction s as [|c s IH]; intros cur; cbn [split_from length].
  - pose proof (weight_flush cur). lia.
  - destruct (isspace c).
    + rewrite weight_app. specialize (IH []).
      pose proof (weight_flush cur). cbn [length] in IH. lia.
    + specialize (IH (cur ++ [c])). rewrite length_app in IH.
      cbn [length] in IH. lia.
Qed.

Lemma weight_sublist (l1 l2 : list str) :
  l1 `sublist_of` l2 → (weight l1 ≤ weight l2)%nat.
Proof. induction 1; rewrite ?weight_cons; lia. Qed.

Lemma fromkeys_sublist `{EqDecision A} (xs : list A) :
  fromkeys xs `sublist_of` xs.
Proof.
  induction xs as [|x xs IH]; [done|]. cbn. apply sublist_skip.
  etrans; [apply sublist_filter|done].
Qed.

Lemma weight_process_words (EMOJI_DATA : char → bool) (words : list str) :
  (weight (map (process_word EMOJI_DATA) words) ≤ weight words)%nat.
Proof.
  induction words as [|w words IH]; [done|].
  cbn [map]. rewrite !weight_cons.
  assert (length (process_word EMOJI_DATA w) ≤ length w)%nat.
  { unfold process_word. destruct (all_chars EMOJI_DATA w); [|done].
    apply sublist_length, fromkeys_sublist. }
  lia.
Qed.

(** X17. [unique_vals] never lengthens a string and never adds a word: the
    result has at most as many characters and at most as many words as
    the input, and a text without a word becomes the empty string. *)
Theorem unique_vals_shortens (EMOJI_DATA : char → bool) (s : str) :
  ∃ t : str,
    unique_vals EMOJI_DATA (Scalar (SStr s)) = Ok (Scalar (SStr t))
    ∧ (length t ≤ length s)%nat
    ∧ (length (split t) ≤ length (split s))%nat
    ∧ (split s = [] → t = []).
Proof.
  exists (process_text EMOJI_DATA (SStr s)). split; [done|].
  assert (weight (unique_words EMOJI_DATA s) ≤ length s + 1)%nat as Hw.
  { etrans; [apply weight_sublist, fromkeys_sublist|].
    etrans; [apply weight_process_words|].
    apply (weight_split_from [] s). }
  split; [|split].
  - cbn [process_text]. fold (unique_words EMOJI_DATA s).
    destruct (unique_words EMOJI_DATA s) as [|w ws] eqn:Hwords; [cbn; lia|].
    pose proof (join_length (w :: ws) ltac:(done)). lia.
  - rewrite split_process_text. unfold unique_words.
    etrans; [apply sublist_length, fromkeys_sublist|].
    by rewrite length_map.
  - cbn [process_text]. by intros ->.
Qed.

(** ** Instances on the sample data *)

Lemma remove_links_clean_witness :
  SStr [ch_a] = SNull
  ∨ ∃ t, SStr [ch_a] = SStr t ∧ has_link t = false ∧ strip t = t.
Proof.
  apply (remove_links_clean sample_link_data (SStr [ch_a])).
  vm_compute. constructor.
Defined.

Lemma builder_row_count_witness : length (rows sample_frame) = 2%nat.
Proof.
  apply (builder_row_count sample_emoji sample_data false 0%float
           sample_frame).
  right. vm_compute. reflexivity.
Defined.

Lemma emoji_columns_witness :
  [heart] ∈ columns sample_emoji_frame ↔
  ∃ c s, [heart] = [c] ∧ sample_emoji c = true
         ∧ SStr s ∈ posts sample_emoji_data false ∧ c ∈ s.
Proof.
  apply (emoji_columns sample_emoji sample_emoji_data false
           sample_emoji_frame [heart]).
  vm_compute. reflexivity.
Defined.

Lemma word_columns_witness :
  ∃ (raw : list (list str)) (min_count : Z),
    word_transactions sample_emoji sample_data false = Ok raw
    ∧ Forall (λ txn, NoDup txn ∧ Forall proper_word txn) raw
    ∧ min_count_of 1%float (length raw) = Ok min_count
    ∧ ∀ item : str,
        item ∈ columns (OneHot [[ch_a]] [[true]; [true]]) ↔
        item ∈ concat raw ∧ min_count ≤ doc_freq item raw.
Proof.
  apply (word_columns sample_emoji sample_data false 1%float
           (OneHot [[ch_a]] [[true]; [true]])).
  vm_compute. reflexivity.
Defined.

Lemma pruning_keeps_all_witness :
  filter_transactions sample_transactions 0.5%float = Ok sample_transactions.
Proof.
  apply (pruning_keeps_all sample_transactions 0.5%float 1).
  - vm_compute. reflexivity.
  - done.
Defined.

Lemma word_builder_prunes_everything_witness :
  prepare_emoji_word_data sample_emoji sample_data false 2%float
  = Ok (OneHot [] (replicate (length sample_transactions) [])).
Proof.
  apply (word_builder_prunes_everything sample_emoji sample_data false
           2%float sample_transactions 4).
  - vm_compute. reflexivity.
  - vm_compute. reflexivity.
  - vm_compute. reflexivity.
Defined.



Lemma dedup_keeps_first_row_witness :
  ∃ out : rule_frame float,
    remove_duplicates aba_frame = Ok out
    ∧ out `sublist_of` aba_frame
    ∧ head out = head aba_frame
    ∧ out ≠ [].
Proof.
  apply (dedup_keeps_first_row aba_frame).
  - discriminate.
  - apply (bool_decide_unpack (NoDup aba_frame.*1)). vm_compute. exact I.
Defined.

Lemma remove_duplicates_retained_witness :
  remove_duplicates ab_frame = Ok (dedup_retained None ab_frame).
Proof.
  apply (remove_duplicates_retained ab_frame).
  - apply (bool_decide_unpack (NoDup ab_frame.*1)). vm_compute. exact I.
  - apply (bool_decide_unpack (NoDup (sides ∘ snd <$> ab_frame))).
    vm_compute. exact I.
Defined.

Lemma dedup_leaves_no_adjacent_mirror_witness :
  ∃ out : rule_frame float,
    remove_duplicates ab_frame = Ok out
    ∧ ∀ i p r, out !! i = Some p → out !! S i = Some r →
               mirror r.2 p.2 = false.
Proof.
  apply (dedup_leaves_no_adjacent_mirror ab_frame).
  - apply (bool_decide_unpack (NoDup ab_frame.*1)). vm_compute. exact I.
  - apply (bool_decide_unpack (NoDup (sides ∘ snd <$> ab_frame))).
    vm_compute. exact I.
Defined.

Lemma analyzer_result_witness :
  given_itemsets (Ok sample_itemsets) sample_onehot 0.5%float
  = Ok (itemsets sample_result)
  ∧ (∀ row, row ∈ rules sample_result →
       fle (fadd (of_int 1) 0.5%float) (lift row.2) = true
       ∨ (false = true
          ∧ fle (lift row.2) (fsub (of_int 1) 0.5%float) = true))
  ∧ ((itemsets sample_result = [] ∧ rules sample_result = []
      ∧ [Mining 0.5%float; RuleGeneration 3 0.125%float]
        = [Mining 0.5%float])
     ∨ ∃ rs,
         itemsets sample_result ≠ []
         ∧ rs ≠ []
         ∧ given_rules (Ok [rule_ab; rule_ba]) (itemsets sample_result)
             (length (itemsets sample_result)) 0.125%float = Ok rs
         ∧ [Mining 0.5%float; RuleGeneration 3 0.125%float]
           = [Mining 0.5%float;
              RuleGeneration (length (itemsets sample_result)) 0.125%float]
         ∧ rules sample_result `sublist_of` range_index rs
         ∧ head (rules sample_result)
           = head (lift_filter 0.5%float false (range_index rs))).
Proof.
  apply (analyzer_result (given_itemsets (Ok sample_itemsets))
           (given_rules (Ok [rule_ab; rule_ba]))
           sample_onehot 0.5%float 0.125%float 0.5%float false
           [Mining 0.5%float; RuleGeneration 3 0.125%float] sample_result).
  vm_compute. reflexivity.
Defined.

Lemma library_errors_propagate_witness :
  market_basket_analyzer (given_itemsets (Raise ValueError))
    (given_rules (Ok [])) sample_onehot 0%float 0.125%float 0.5%float
    false []
  = ([Mining 0%float], Raise ValueError)
  ∧ market_basket_analyzer (given_itemsets (Ok sample_itemsets))
      (given_rules (Raise KeyError)) sample_onehot 0.5%float 0.125%float
      0.5%float false []
    = ([Mining 0.5%float; RuleGeneration 3 0.125%float], Raise KeyError).
Proof.
  split.
  - refine (proj1 (library_errors_propagate
                     (given_itemsets (Raise ValueError))
                     (given_rules (Ok [])) sample_onehot 0%float
                     0.125%float 0.5%float false ValueError) _).
    reflexivity.
  - refine (proj2 (library_errors_propagate
                     (given_itemsets (Ok sample_itemsets))
                     (given_rules (Raise KeyError)) sample_onehot 0.5%float
                     0.125%float 0.5%float false KeyError)
              sample_itemsets _ _ _).
    + discriminate.
    + reflexivity.
    + reflexivity.
Defined.

(** ** Links never become items *)








(** ** Test mode *)


